(** * scd/card.c: the card functions of SCdaemon

    A shallow embedding of [src/scd/card.c] and the properties of its
    TLV scanner, of the ICC serial number extraction, of the lazy
    binding of the card application and of the open/close life cycle.

    Conventions.
    - A [size_t] is a [Z] in [0, 2^64); every [size_t] subtraction and
      conversion is written with its wrap-around ([to_size_t]).
    - A buffer is a [list byte] together with the [length] the C caller
      passes; a read at an index outside [0, length) is not performed
      but reported as [Abnormal OutOfBounds].
    - Whether plain [char] is signed is left to the C implementation,
      so it is a parameter ([char_signed]) of every function that reads
      through a [const char *]. *)

From Stdlib Require Import ZArith List Lia Bool String Ascii.
From Stdlib.Strings Require Import Byte.
Import ListNotations.
Local Open Scope Z_scope.

(** ** C integers and bytes *)

Definition size_bits : Z := 64.

Definition to_size_t (z : Z) : Z := z mod 2 ^ size_bits.

(** [a - b] computed in [size_t]. *)
Definition size_sub (a b : Z) : Z := to_size_t (a - b).

(** The value of [*p] for [const unsigned char *p]. *)
Definition uchar (b : byte) : Z := Z.of_N (Byte.to_N b).

(** The value of [*p] for [const char *p]: the same byte, read as a
    two's complement number where plain [char] is signed. *)
Definition char_val (char_signed : bool) (b : byte) : Z :=
  if char_signed && (128 <=? uchar b) then uchar b - 256 else uchar b.

(** What the model reports instead of a result: a read outside the
    buffer, or a loop that used up its fuel. *)
Inductive abnormal : Set := OutOfBounds | OutOfFuel.

Module Tlv.

(** [buffer[i]], performed only for [0 <= i < length]. *)
Definition rd (buffer : list byte) (length i : Z) : option byte :=
  if (0 <=? i) && (i <? length) then nth_error buffer (Z.to_nat i) else None.

(** Result of [find_simple_tlv]: [Found off len] is the return value
    [buffer + off] with [*nbytes = len]; [NotFound] is [NULL]. *)
Inductive scan_result : Set :=
| Found (off len : Z)
| NotFound
| Abnormal (a : abnormal).

Inductive header : Set :=
| Header (len s n : Z)
| NoHeader (r : scan_result).

Inductive iter : Set :=
| Return (r : scan_result)
| Next (s n : Z).

Section Scanner.

Variable char_signed : bool.
Variable buffer : list byte.
Variable length : Z.
Variable tag : Z.

(** Lines 195-205: the length field of the record at offset [s0],
    with [n0] bytes left.  [s] is a [const char *], so [s[1]] is a
    plain [char] that is converted to [size_t]. *)
Definition read_header (s0 n0 : Z) : header :=
  if n0 <? 2 then NoHeader NotFound
  else
    match rd buffer length (s0 + 1) with
    | None => NoHeader (Abnormal OutOfBounds)
    | Some b1 =>
        let len := to_size_t (char_val char_signed b1) in
        let s := s0 + 2 in
        let n := size_sub n0 2 in
        if len =? 255 then
          if n <? 2 then NoHeader NotFound
          else
            match rd buffer length s, rd buffer length (s + 1) with
            | Some c0, Some c1 =>
                Header
                  (to_size_t (Z.lor (Z.shiftl (char_val char_signed c0) 8)
                                    (char_val char_signed c1)))
                  (s + 2) (size_sub n 2)
            | _, _ => NoHeader (Abnormal OutOfBounds)
            end
        else Header len s n
    end.

(** Lines 194-213: one turn of the [for (;;)] loop.  [*buffer] is read
    through the [const unsigned char *] parameter. *)
Definition scan_iter (s0 n0 : Z) : iter :=
  match read_header s0 n0 with
  | NoHeader r => Return r
  | Header len s n =>
      match rd buffer length s0 with
      | None => Return (Abnormal OutOfBounds)
      | Some t =>
          if uchar t =? tag then Return (Found s len)
          else if n <? len then Return NotFound
          else Next (s + len) (size_sub n len)
      end
  end.

(** The loop, with the number of turns it took. *)
Fixpoint scan_loop (fuel : nat) (s n : Z) : scan_result * nat :=
  match fuel with
  | O => (Abnormal OutOfFuel, O)
  | S fuel' =>
      match scan_iter s n with
      | Return r => (r, 1%nat)
      | Next s' n' =>
          let '(r, k) := scan_loop fuel' s' n' in (r, S k)
      end
  end.

Definition find_simple_tlv : scan_result :=
  fst (scan_loop (S (Z.to_nat length)) 0 length).

Definition iterations : nat :=
  snd (scan_loop (S (Z.to_nat length)) 0 length).

(** The scan from a state of the loop, with the fuel of
    [find_simple_tlv]. *)
Definition run (s n : Z) : scan_result :=
  fst (scan_loop (S (Z.to_nat n)) s n).

(** The states the loop of [find_simple_tlv] goes through. *)
Inductive visits : Z -> Z -> Prop :=
| visits_start : visits 0 length
| visits_next s n s' n' :
    visits s n ->
    scan_iter s n = Next s' n' ->
    visits s' n'.

End Scanner.

(** [s] bytes are consumed, [n] are left. *)
Definition inv (length s n : Z) : Prop := 0 <= s /\ 0 <= n /\ s + n = length.

(** A result that is a return value of the C function: a pointer into
    the buffer with a length, or [NULL]. *)
Definition returned (length : Z) (r : scan_result) : Prop :=
  match r with
  | Found off len => 2 <= off <= length /\ 0 <= len < 2 ^ size_bits
  | NotFound => True
  | Abnormal _ => False
  end.

(** [find_simple_tlv] on a buffer of exactly [length] bytes. *)
Definition scan (char_signed : bool) (buffer : list byte) (tag : Z) : scan_result :=
  find_simple_tlv char_signed buffer (Z.of_nat (List.length buffer)) tag.

End Tlv.

(** ** Error codes *)

(** The enumeration of [errors.h], restricted to the codes [card.c]
    names.  [GNUPG_No_Error] is the value 0, which [if (rc)] tests for;
    [GNUPG_EOF] is the -1 a backend returns at the end of an
    enumeration. *)
Inductive gnupg_error : Set :=
| GNUPG_No_Error
| GNUPG_EOF
| GNUPG_Out_Of_Core
| GNUPG_Invalid_Value
| GNUPG_Invalid_Index
| GNUPG_Not_Supported
| GNUPG_No_PKCS15_App
| GNUPG_Card_Not_Present
| GNUPG_Card_Removed
| GNUPG_Invalid_Card
| GNUPG_Card_Error
| GNUPG_Card_Not_Initialized
| GNUPG_Unsupported_Operation
| GNUPG_Missing_Certificate.

Definition is_error (rc : gnupg_error) : bool :=
  match rc with GNUPG_No_Error => false | _ => true end.

(** The constants of the OpenSC headers that [card.c] uses.  The headers
    are not part of the sources, so their values are a parameter. *)
Record opensc_h : Set := {
  SC_ERROR_NOT_SUPPORTED : Z;
  SC_ERROR_PKCS15_APP_NOT_FOUND : Z;
  SC_ERROR_OUT_OF_MEMORY : Z;
  SC_ERROR_CARD_NOT_PRESENT : Z;
  SC_ERROR_CARD_REMOVED : Z;
  SC_ERROR_INVALID_CARD : Z;
  SC_FILE_TYPE_WORKING_EF : Z;
  SC_FILE_EF_TRANSPARENT : Z
}.

(** The result of a function that returns an error code and stores its
    value through a pointer: [Ok a] is the return value 0. *)
Inductive outcome (A : Type) : Type :=
| Ok (a : A)
| Err (rc : gnupg_error)
| Undefined (a : abnormal).
Arguments Ok {A} a.
Arguments Err {A} rc.
Arguments Undefined {A} a.

Module ErrMap.

(** Lines 35-50.  The labels of a C [switch] are pairwise distinct, so
    the order of the tests does not matter. *)
Definition map_sc_err (E : opensc_h) (rc : Z) : gnupg_error :=
  if rc =? 0 then GNUPG_No_Error
  else if rc =? SC_ERROR_NOT_SUPPORTED E then GNUPG_Not_Supported
  else if rc =? SC_ERROR_PKCS15_APP_NOT_FOUND E then GNUPG_No_PKCS15_App
  else if rc =? SC_ERROR_OUT_OF_MEMORY E then GNUPG_Out_Of_Core
  else if rc =? SC_ERROR_CARD_NOT_PRESENT E then GNUPG_Card_Not_Present
  else if rc =? SC_ERROR_CARD_REMOVED E then GNUPG_Card_Removed
  else if rc =? SC_ERROR_INVALID_CARD E then GNUPG_Invalid_Card
  else GNUPG_Card_Error.

(** The codes that have a [case] of their own. *)
Definition enumerated (E : opensc_h) : list Z :=
  [0; SC_ERROR_NOT_SUPPORTED E; SC_ERROR_PKCS15_APP_NOT_FOUND E;
   SC_ERROR_OUT_OF_MEMORY E; SC_ERROR_CARD_NOT_PRESENT E;
   SC_ERROR_CARD_REMOVED E; SC_ERROR_INVALID_CARD E].

End ErrMap.

Module Serial.

(** [sprintf (p, "%02X", *s)] for an [unsigned char]. *)
Definition hex_digit (d : Z) : ascii :=
  if d <? 10 then ascii_of_N (Z.to_N (48 + d)) else ascii_of_N (Z.to_N (55 + d)).

Definition hex2 (b : byte) : string :=
  String (hex_digit (uchar b / 16)) (String (hex_digit (uchar b mod 16)) EmptyString).

(** Lines 253-255: [n] bytes from offset [s], two digits each. *)
Fixpoint render (buffer : list byte) (length : Z) (n : nat) (s : Z) : option string :=
  match n with
  | O => Some EmptyString
  | S n' =>
      match Tlv.rd buffer length s with
      | None => None
      | Some b =>
          match render buffer length n' (s + 1) with
          | None => None
          | Some rest => Some (hex2 b ++ rest)%string
          end
      end
  end.

(** Lines 232-246: the value length that is used when the scanner
    found a value of [n] bytes and [rest] bytes follow the header. *)
Definition fit_length (rest n : Z) : option Z :=
  if rest <? n then
    if (n =? 0x0D) && (to_size_t (rest + 1) =? n)
    then Some (size_sub n 1)
    else None
  else Some n.

(** Lines 221-257.  [xtrymalloc_ok] tells whether the allocation of
    line 250 succeeds.  [GNUPG_Card_Error] is the code of every
    structural failure; the caller logs it as "invalid structure of GDO
    file". *)
Definition find_iccsn (char_signed : bool) (xtrymalloc_ok : bool)
    (buffer : list byte) (length : Z) : outcome string :=
  match Tlv.find_simple_tlv char_signed buffer length 0x5A with
  | Tlv.Abnormal a => Undefined a
  | Tlv.NotFound => Err GNUPG_Card_Error
  | Tlv.Found off n =>
      (* line 231: length -= s - buffer *)
      match fit_length (size_sub length off) n with
      | None => Err GNUPG_Card_Error
      | Some n =>
          if n =? 0 then Err GNUPG_Card_Error
          else if negb xtrymalloc_ok then Err GNUPG_Out_Of_Core
          else
            match render buffer length (Z.to_nat n) off with
            | None => Undefined OutOfBounds
            | Some str => Ok str
            end
      end
  end.

(** The bytes [buffer[off .. off + n - 1]]. *)
Definition slice (buffer : list byte) (off n : Z) : list byte :=
  firstn (Z.to_nat n) (skipn (Z.to_nat off) buffer).

Definition hex_string (bs : list byte) : string :=
  fold_right (fun b acc => (hex2 b ++ acc)%string) EmptyString bs.

Definition is_upper_hex (c : ascii) : bool :=
  existsb (Ascii.eqb c) (list_ascii_of_string "0123456789ABCDEF").

End Serial.

Module Session.

(** *** The structures of [card-common.h] and of OpenSC, as [card.c]
    uses them *)

Record sc_context : Set := { reader_count : Z }.

Record sc_card : Set := { driver_name : string }.

Record sc_pkcs15_card : Set := { serial_number : option string }.

Record sc_file : Set := { file_type : Z; ef_structure : Z; file_size : Z }.

(** The table of function pointers [card->fnc]; [None] is a null
    pointer.  A backend function gets the arguments of the public
    function and returns its error code and its output. *)
Record card_fnc : Type := {
  initialized : bool;
  enum_keypairs : option (Z -> gnupg_error * (list byte * option string));
  read_cert : option (string -> gnupg_error * list byte);
  sign : option (string -> Z -> list byte -> gnupg_error * list byte);
  decipher : option (string -> list byte -> gnupg_error * list byte)
}.

(** [struct card_ctx_s]; [None] is a null pointer. *)
Record card_ctx_s : Type := {
  reader : Z;
  ctx : option sc_context;
  scard : option sc_card;
  p15card : option sc_pkcs15_card;
  fnc : card_fnc
}.

(** What [xtrycalloc (1, sizeof *card)] returns. *)
Definition zeroed_card : card_ctx_s :=
  {| reader := 0; ctx := None; scard := None; p15card := None;
     fnc := {| initialized := false; enum_keypairs := None; read_cert := None;
               sign := None; decipher := None |} |}.

Definition set_ctx (c : card_ctx_s) (x : option sc_context) : card_ctx_s :=
  {| reader := reader c; ctx := x; scard := scard c; p15card := p15card c; fnc := fnc c |}.

Definition set_scard (c : card_ctx_s) (x : option sc_card) : card_ctx_s :=
  {| reader := reader c; ctx := ctx c; scard := x; p15card := p15card c; fnc := fnc c |}.

Definition set_p15card (c : card_ctx_s) (x : option sc_pkcs15_card) : card_ctx_s :=
  {| reader := reader c; ctx := ctx c; scard := scard c; p15card := x; fnc := fnc c |}.

Definition set_fnc (c : card_ctx_s) (x : card_fnc) : card_ctx_s :=
  {| reader := reader c; ctx := ctx c; scard := scard c; p15card := p15card c; fnc := x |}.

Definition set_initialized (f : card_fnc) (b : bool) : card_fnc :=
  {| initialized := b; enum_keypairs := enum_keypairs f; read_cert := read_cert f;
     sign := sign f; decipher := decipher f |}.

(** *** Calls into the transport and the allocator, in the order the
    code makes them *)

Inductive call : Set :=
| Xtrycalloc (ok : bool)
| Sc_establish_context (rc : Z)
| Sc_detect_card_presence (r : Z)
| Sc_connect_card (rc : Z)
| Sc_lock (rc : Z)
| Sc_pkcs15_bind (rc : Z)
| Card_p15_bind
| Card_dinsig_bind
| Sc_select_file (rc : Z)
| Sc_read_binary (rc : Z)
| Sc_pkcs15_unbind
| Sc_unlock
| Sc_disconnect_card
| Sc_release_context
| Xfree_card.

(** Lines 155-178.  [card_close] returns nothing; the model returns the
    calls it makes. *)
Definition card_close (card : option card_ctx_s) : list call :=
  match card with
  | None => []
  | Some c =>
      (match p15card c with Some _ => [Sc_pkcs15_unbind] | None => [] end)
      ++ (match scard c with Some _ => [Sc_unlock; Sc_disconnect_card] | None => [] end)
      ++ (match ctx c with Some _ => [Sc_release_context] | None => [] end)
      ++ [Xfree_card]
  end.

(** What the transport answers during [card_open].  A failing
    [sc_establish_context] or [sc_connect_card] leaves the pointer it
    was given as [xtrycalloc] zeroed it. *)
Record open_world : Set := {
  ow_xtrycalloc : bool;
  ow_establish_context : Z * sc_context;
  ow_detect_card_presence : Z;
  ow_connect_card : Z * sc_card;
  ow_lock : Z
}.

Section Open.

Variable E : opensc_h.
Variable w : open_world.

(** Lines 100-142: the body of [card_open] up to the label [leave],
    on the card that [xtrycalloc] returned. *)
Definition card_open_body : gnupg_error * card_ctx_s * list call :=
  let card := zeroed_card in
  let '(rc, sctx) := ow_establish_context w in
  if negb (rc =? 0) then
    (ErrMap.map_sc_err E rc, card, [Sc_establish_context rc])
  else
    let card := set_ctx card (Some sctx) in
    if reader_count sctx <=? reader card then
      (GNUPG_Card_Error, card, [Sc_establish_context rc])
    else if negb (ow_detect_card_presence w =? 1) then
      (GNUPG_Card_Not_Present, card,
       [Sc_establish_context rc; Sc_detect_card_presence (ow_detect_card_presence w)])
    else
      let '(rc1, sc) := ow_connect_card w in
      let tr := [Sc_establish_context rc;
                 Sc_detect_card_presence (ow_detect_card_presence w);
                 Sc_connect_card rc1] in
      if negb (rc1 =? 0) then (ErrMap.map_sc_err E rc1, card, tr)
      else
        let card := set_scard card (Some sc) in
        let rc2 := ow_lock w in
        if negb (rc2 =? 0) then (ErrMap.map_sc_err E rc2, card, tr ++ [Sc_lock rc2])
        else (GNUPG_No_Error, card, tr ++ [Sc_lock rc2]).

(** Lines 89-151.  The result is the return value, [*rcard] when it
    is stored, and the calls made. *)
Definition card_open : gnupg_error * option card_ctx_s * list call :=
  if negb (ow_xtrycalloc w) then (GNUPG_Out_Of_Core, None, [Xtrycalloc false])
  else
    let '(rc, card, tr) := card_open_body in
    if is_error rc
    then (rc, None, Xtrycalloc true :: tr ++ card_close (Some card))
    else (rc, Some card, Xtrycalloc true :: tr).

End Open.

(** What the card answers during [card_get_serial_and_stamp].
    [sw_pkcs15_bind] is the return value of [sc_pkcs15_bind] and what it
    stored in [card->p15card]; [sw_read_binary] is the return value of
    [sc_read_binary] and the contents of [buf] after it;
    [sw_xtrymalloc_iccsn] and [sw_xtrymalloc_prefix] tell whether the
    allocation of line 250 and that of line 361 or 374 succeed. *)
Record serial_world : Set := {
  sw_pkcs15_bind : Z * option sc_pkcs15_card;
  sw_select_file : Z * sc_file;
  sw_read_binary : Z * list byte;
  sw_xtrymalloc_iccsn : bool;
  sw_xtrymalloc_prefix : bool
}.

Definition placeholder : string := "D27600000000000000000000".

(** Line 371: the first two characters of the serial are both the
    letter F. *)
Definition starts_with_FF (str : string) : bool :=
  match str with
  | String c0 (String c1 _) => Ascii.eqb c0 "F" && Ascii.eqb c1 "F"
  | _ => false
  end.

(** The first test of line 349 after [!rc]: a PKCS-15 card is bound and
    the serial is the placeholder. *)
Definition silly_serial (card : card_ctx_s) (str : string) : bool :=
  match p15card card with
  | Some _ => String.eqb str placeholder
  | None => false
  end.

Definition efser (card : card_ctx_s) : string :=
  match p15card card with
  | Some p15 => match serial_number p15 with Some str => str | None => EmptyString end
  | None => EmptyString
  end.

(** Lines 349-389: the two prefix rules, applied to the result of
    [find_iccsn]. *)
Definition serial_prefix (card : card_ctx_s) (xtrymalloc_ok : bool)
    (r : outcome string) : outcome string :=
  match r with
  | Ok str =>
      if silly_serial card str then
        if xtrymalloc_ok then Ok ("FF0100" ++ efser card)%string
        else Err GNUPG_Out_Of_Core
      else if starts_with_FF str then
        if xtrymalloc_ok then Ok ("FF0000" ++ str)%string
        else Err GNUPG_Out_Of_Core
      else Ok str
  | _ => r
  end.

Section Operations.

Variable E : opensc_h.
Variable char_signed : bool.

(** [card_p15_bind] and [card_dinsig_bind] live in [card-p15.c] and
    [card-dinsig.c]; they set up the function pointers. *)
Variable card_p15_bind : card_fnc -> card_fnc.
Variable card_dinsig_bind : card_fnc -> card_fnc.

(** Lines 283-302: the first use of the card. *)
Definition bind_on_first_use (w : serial_world) (card : card_ctx_s)
  : card_ctx_s * list call :=
  if initialized (fnc card) then (card, [])
  else
    let card := set_fnc card (set_initialized (fnc card) true) in
    let '(rc, p15) := sw_pkcs15_bind w in
    let card := set_p15card card (if rc =? 0 then p15 else None) in
    let '(card, ev) :=
      match p15card card with
      | Some _ => (set_fnc card (card_p15_bind (fnc card)), Card_p15_bind)
      | None => (set_fnc card (card_dinsig_bind (fnc card)), Card_dinsig_bind)
      end in
    (set_fnc card (set_initialized (fnc card) true), [Sc_pkcs15_bind rc; ev]).

(** Lines 310-346: read the GDO file 2F02 and extract the serial. *)
Definition read_iccsn (w : serial_world) : outcome string * list call :=
  let '(rc, file) := sw_select_file w in
  if negb (rc =? 0) then (Err GNUPG_Card_Error, [Sc_select_file rc])
  else if negb (file_type file =? SC_FILE_TYPE_WORKING_EF E)
          || negb (ef_structure file =? SC_FILE_EF_TRANSPARENT E)
  then (Err GNUPG_Card_Error, [Sc_select_file rc])
  else if (file_size file =? 0) || (256 <=? file_size file)
  then (Err GNUPG_Card_Error, [Sc_select_file rc])
  else
    let buflen := file_size file in
    let '(rc1, buf) := sw_read_binary w in
    let tr := [Sc_select_file rc; Sc_read_binary rc1] in
    if rc1 <? 0 then (Err GNUPG_Card_Error, tr)
    else if negb (rc1 =? buflen) then (Err GNUPG_Card_Error, tr)
    else (Serial.find_iccsn char_signed (sw_xtrymalloc_iccsn w) buf buflen, tr).

(** Lines 268-390.  [serial] and [stamp] tell whether the pointers
    are non-null.  The result is the card after the call, the return
    value with [*serial], and the calls made. *)
Definition card_get_serial_and_stamp (w : serial_world)
    (card : option card_ctx_s) (serial stamp : bool)
  : option card_ctx_s * outcome string * list call :=
  match card with
  | None => (None, Err GNUPG_Invalid_Value, [])
  | Some c =>
      if negb serial || negb stamp then (Some c, Err GNUPG_Invalid_Value, [])
      else
        let '(c, tr) := bind_on_first_use w c in
        let '(r, tr1) := read_iccsn w in
        (Some c, serial_prefix c (sw_xtrymalloc_prefix w) r, tr ++ tr1)
  end.

End Operations.

(** Result of a public operation that was not forwarded. *)
Definition refuse {A : Type} (rc : gnupg_error) : gnupg_error * option A := (rc, None).

Definition forward {A : Type} (r : gnupg_error * A) : gnupg_error * option A :=
  (fst r, Some (snd r)).

(** Lines 403-426.  [keygrip] tells whether the buffer is non-null. *)
Definition card_enum_keypairs (card : option card_ctx_s) (idx : Z) (keygrip : bool)
  : gnupg_error * option (list byte * option string) :=
  match card with
  | None => refuse GNUPG_Invalid_Value
  | Some c =>
      if negb keygrip then refuse GNUPG_Invalid_Value
      else if idx <? 0 then refuse GNUPG_Invalid_Index
      else if negb (initialized (fnc c)) then refuse GNUPG_Card_Not_Initialized
      else match enum_keypairs (fnc c) with
           | None => refuse GNUPG_Unsupported_Operation
           | Some f => forward (f idx)
           end
  end.

(** Lines 433-449. *)
Definition card_read_cert (card : option card_ctx_s) (certidstr : option string)
    (cert ncert : bool) : gnupg_error * option (list byte) :=
  match card, certidstr with
  | Some c, Some id =>
      if negb cert || negb ncert then refuse GNUPG_Invalid_Value
      else if negb (initialized (fnc c)) then refuse GNUPG_Card_Not_Initialized
      else match read_cert (fnc c) with
           | None => refuse GNUPG_Unsupported_Operation
           | Some f => forward (f id)
           end
  | _, _ => refuse GNUPG_Invalid_Value
  end.

(** The arguments [card_sign] and [card_decipher] check alike:
    [indata] with [indatalen], and whether [outdata], [outdatalen] and
    [pincb] are non-null. *)
Record crypt_args : Set := {
  indata : option (list byte);
  indatalen : Z;
  outdata : bool;
  outdatalen : bool;
  pincb : bool
}.

Definition crypt_args_ok (a : crypt_args) : bool :=
  match indata a with Some _ => true | None => false end
  && negb (indatalen a =? 0) && outdata a && outdatalen a && pincb a.

Definition the_indata (a : crypt_args) : list byte :=
  match indata a with Some d => d | None => [] end.

(** Lines 455-477. *)
Definition card_sign (card : option card_ctx_s) (keyidstr : string) (hashalgo : Z)
    (a : crypt_args) : gnupg_error * option (list byte) :=
  match card with
  | None => refuse GNUPG_Invalid_Value
  | Some c =>
      if negb (crypt_args_ok a) then refuse GNUPG_Invalid_Value
      else if negb (initialized (fnc c)) then refuse GNUPG_Card_Not_Initialized
      else match sign (fnc c) with
           | None => refuse GNUPG_Unsupported_Operation
           | Some f => forward (f keyidstr hashalgo (the_indata a))
           end
  end.

(** Lines 483-505. *)
Definition card_decipher (card : option card_ctx_s) (keyidstr : string)
    (a : crypt_args) : gnupg_error * option (list byte) :=
  match card with
  | None => refuse GNUPG_Invalid_Value
  | Some c =>
      if negb (crypt_args_ok a) then refuse GNUPG_Invalid_Value
      else if negb (initialized (fnc c)) then refuse GNUPG_Card_Not_Initialized
      else match decipher (fnc c) with
           | None => refuse GNUPG_Unsupported_Operation
           | Some f => forward (f keyidstr (the_indata a))
           end
  end.

(** *** A session as a sequence of calls *)

Inductive request : Set :=
| Get_serial_and_stamp (w : serial_world) (serial stamp : bool)
| Enum_keypairs (idx : Z) (keygrip : bool)
| Read_cert (certidstr : option string) (cert ncert : bool)
| Sign (keyidstr : string) (hashalgo : Z) (a : crypt_args)
| Decipher (keyidstr : string) (a : crypt_args).

Section Serve.

Variable E : opensc_h.
Variable char_signed : bool.
Variable card_p15_bind : card_fnc -> card_fnc.
Variable card_dinsig_bind : card_fnc -> card_fnc.

(** The card after a request and the calls the request made.  The
    four operations have no statement that writes to the card, and
    they call nothing but the backend function; what a backend calls
    is not part of [card.c] and is not recorded. *)
Definition serve (card : card_ctx_s) (r : request) : card_ctx_s * list call :=
  match r with
  | Get_serial_and_stamp w serial stamp =>
      match card_get_serial_and_stamp E char_signed card_p15_bind card_dinsig_bind
              w (Some card) serial stamp with
      | (Some c, _, tr) => (c, tr)
      | (None, _, tr) => (card, tr)
      end
  | _ => (card, [])
  end.

Fixpoint serve_all (card : card_ctx_s) (rs : list request) : card_ctx_s * list call :=
  match rs with
  | [] => (card, [])
  | r :: rs' =>
      let '(c, tr) := serve card r in
      let '(c', tr') := serve_all c rs' in
      (c', tr ++ tr')
  end.

End Serve.

Definition is_bind_attempt (c : call) : bool :=
  match c with Sc_pkcs15_bind _ => true | _ => false end.

Definition bind_attempts (tr : list call) : nat :=
  List.length (filter is_bind_attempt tr).

(** A request that reaches line 283. *)
Definition reaches_binding (r : request) : bool :=
  match r with
  | Get_serial_and_stamp _ serial stamp => serial && stamp
  | _ => false
  end.

(** *** Resources held along a sequence of calls *)

Record held : Set := {
  h_session : bool;
  h_context : bool;
  h_connection : bool;
  h_lock : bool;
  h_p15 : bool
}.

Definition nothing_held : held :=
  {| h_session := false; h_context := false; h_connection := false;
     h_lock := false; h_p15 := false |}.

(** The resources held after a call; [None] when the call releases a
    resource that is not held. *)
Definition after_call (h : held) (c : call) : option held :=
  let keep := Some h in
  match c with
  | Xtrycalloc ok =>
      if ok then Some {| h_session := true; h_context := h_context h;
                         h_connection := h_connection h; h_lock := h_lock h;
                         h_p15 := h_p15 h |}
      else keep
  | Sc_establish_context rc =>
      if rc =? 0 then Some {| h_session := h_session h; h_context := true;
                              h_connection := h_connection h; h_lock := h_lock h;
                              h_p15 := h_p15 h |}
      else keep
  | Sc_connect_card rc =>
      if rc =? 0 then Some {| h_session := h_session h; h_context := h_context h;
                              h_connection := true; h_lock := h_lock h;
                              h_p15 := h_p15 h |}
      else keep
  | Sc_lock rc =>
      if rc =? 0 then Some {| h_session := h_session h; h_context := h_context h;
                              h_connection := h_connection h; h_lock := true;
                              h_p15 := h_p15 h |}
      else keep
  | Sc_pkcs15_bind rc =>
      if rc =? 0 then Some {| h_session := h_session h; h_context := h_context h;
                              h_connection := h_connection h; h_lock := h_lock h;
                              h_p15 := true |}
      else keep
  | Sc_pkcs15_unbind =>
      if h_p15 h then Some {| h_session := h_session h; h_context := h_context h;
                              h_connection := h_connection h; h_lock := h_lock h;
                              h_p15 := false |}
      else None
  | Sc_unlock =>
      if h_lock h then Some {| h_session := h_session h; h_context := h_context h;
                               h_connection := h_connection h; h_lock := false;
                               h_p15 := h_p15 h |}
      else None
  | Sc_disconnect_card =>
      if h_connection h then Some {| h_session := h_session h; h_context := h_context h;
                                     h_connection := false; h_lock := h_lock h;
                                     h_p15 := h_p15 h |}
      else None
  | Sc_release_context =>
      if h_context h then Some {| h_session := h_session h; h_context := false;
                                  h_connection := h_connection h; h_lock := h_lock h;
                                  h_p15 := h_p15 h |}
      else None
  | Xfree_card =>
      if h_session h then Some {| h_session := false; h_context := h_context h;
                                  h_connection := h_connection h; h_lock := h_lock h;
                                  h_p15 := h_p15 h |}
      else None
  | _ => keep
  end.

Fixpoint after_calls (h : held) (tr : list call) : option held :=
  match tr with
  | [] => Some h
  | c :: tr' =>
      match after_call h c with
      | Some h' => after_calls h' tr'
      | None => None
      end
  end.

(** Every release in [tr] releases a resource acquired before it. *)
Definition releases_only_acquired (tr : list call) : bool :=
  match after_calls nothing_held tr with Some _ => true | None => false end.

End Session.

(** ** Well-formed TLV buffers, as the specification describes them *)

Module TlvSpec.

(** A record: its tag, whether its length is written in the extended
    form (0xFF and two bytes, big-endian), and its value. *)
Record tlv : Set := {
  t_tag : byte;
  t_extended : bool;
  t_value : list byte
}.

Definition byte_of_Z (z : Z) : byte :=
  match Byte.of_N (Z.to_N z) with Some b => b | None => x00 end.

Definition value_length (r : tlv) : Z := Z.of_nat (List.length (t_value r)).

Definition encode_header (r : tlv) : list byte :=
  if t_extended r
  then [t_tag r; xff; byte_of_Z (value_length r / 256); byte_of_Z (value_length r mod 256)]
  else [t_tag r; byte_of_Z (value_length r)].

Definition encode_record (r : tlv) : list byte := encode_header r ++ t_value r.

Definition encode (rs : list tlv) : list byte := flat_map encode_record rs.

(** The length fits its field: below 255 in one byte (255 announces
    the extended form), at most 65535 in two. *)
Definition well_formed (r : tlv) : Prop :=
  if t_extended r then value_length r <= 65535 else value_length r < 255.

(** A record that a signed plain [char] reads as it is written. *)
Definition short_form (r : tlv) : Prop :=
  t_extended r = false /\ value_length r < 128.

(** A record that the scanner reads as it is written: well formed,
    and in the short form when plain [char] is signed. *)
Definition readable (char_signed : bool) (r : tlv) : Prop :=
  well_formed r /\ (char_signed = true -> short_form r).

(** The first record with tag [tag], and the offset of its value in
    [encode rs], counted from [base]. *)
Fixpoint first_with_tag (tag : Z) (base : Z) (rs : list tlv) : option (Z * list byte) :=
  match rs with
  | [] => None
  | r :: rs' =>
      let hdr := Z.of_nat (List.length (encode_header r)) in
      if uchar (t_tag r) =? tag then Some (base + hdr, t_value r)
      else first_with_tag tag (base + hdr + value_length r) rs'
  end.

(** What the specification asks of the scanner on [encode rs]. *)
Definition expected (tag : Z) (rs : list tlv) : Tlv.scan_result :=
  match first_with_tag tag 0 rs with
  | Some (off, v) => Tlv.Found off (Z.of_nat (List.length v))
  | None => Tlv.NotFound
  end.

End TlvSpec.

(** ** Sample cards and answers of the transport *)

Module Sample.

Import Session.

(** Values for the constants of OpenSC, used where a statement is
    evaluated. *)
Definition opensc : opensc_h :=
  {| SC_ERROR_NOT_SUPPORTED := -1408;
     SC_ERROR_PKCS15_APP_NOT_FOUND := -1503;
     SC_ERROR_OUT_OF_MEMORY := -1404;
     SC_ERROR_CARD_NOT_PRESENT := -1104;
     SC_ERROR_CARD_REMOVED := -1105;
     SC_ERROR_INVALID_CARD := -1210;
     SC_FILE_TYPE_WORKING_EF := 1;
     SC_FILE_EF_TRANSPARENT := 1 |}.

(** A reader with a card in it, where [sc_lock] answers [lock]. *)
Definition reader_with_card (lock : Z) : open_world :=
  {| ow_xtrycalloc := true;
     ow_establish_context := (0, {| reader_count := 1 |});
     ow_detect_card_presence := 1;
     ow_connect_card := (0, {| driver_name := "driver" |});
     ow_lock := lock |}.

(** A reader without a card. *)
Definition empty_reader : open_world :=
  {| ow_xtrycalloc := true;
     ow_establish_context := (0, {| reader_count := 1 |});
     ow_detect_card_presence := 0;
     ow_connect_card := (0, {| driver_name := "driver" |});
     ow_lock := 0 |}.

(** A card whose GDO file holds [data]; [sc_pkcs15_bind] answers
    [bind]; every allocation succeeds. *)
Definition gdo_card (bind : Z * option sc_pkcs15_card) (data : list byte) : serial_world :=
  {| sw_pkcs15_bind := bind;
     sw_select_file :=
       (0, {| file_type := 1; ef_structure := 1;
              file_size := Z.of_nat (List.length data) |});
     sw_read_binary := (Z.of_nat (List.length data), data);
     sw_xtrymalloc_iccsn := true;
     sw_xtrymalloc_prefix := true |}.

(** The GDO file of a card with the placeholder serial. *)
Definition silly_gdo : list byte :=
  [x5a; x0c; xd2; x76; x00; x00; x00; x00; x00; x00; x00; x00; x00; x00].

(** A GDO file whose serial starts with FF. *)
Definition ff_gdo : list byte := [x5a; x04; xff; x11; x22; x33].

Definition p15_ABC123 : sc_pkcs15_card := {| serial_number := Some "ABC123"%string |}.

(** The card that [card_open] stores for a reader with a card. *)
Definition opened : card_ctx_s :=
  match card_open opensc (reader_with_card 0) with
  | (_, Some c, _) => c
  | _ => zeroed_card
  end.

(** A well-formed buffer with one record in the extended form: tag
    0x5A, length 1 written as FF 00 01, value AA. *)
Definition extended_record : list TlvSpec.tlv :=
  [{| TlvSpec.t_tag := x5a; TlvSpec.t_extended := true; TlvSpec.t_value := [xaa] |}].

(** A well-formed buffer with two records in the short form: tag 01
    with 128 value bytes, then tag 0x5A with the value AA. *)
Definition long_record_first : list TlvSpec.tlv :=
  [{| TlvSpec.t_tag := x01; TlvSpec.t_extended := false;
      TlvSpec.t_value := repeat x00 128 |};
   {| TlvSpec.t_tag := x5a; TlvSpec.t_extended := false; TlvSpec.t_value := [xaa] |}].

(** One request of each kind, with arguments that pass the checks. *)
Definition some_args : crypt_args :=
  {| indata := Some [x00]; indatalen := 1; outdata := true; outdatalen := true;
     pincb := true |}.

Definition four_operations : list request :=
  [Enum_keypairs 0 true; Read_cert (Some "3F005015.01"%string) true true;
   Sign "3F005015.01"%string 2 some_args; Decipher "3F005015.01"%string some_args].

(** Function tables as [card_p15_bind] and [card_dinsig_bind] could set
    them up: every backend function answers [GNUPG_EOF]; the second
    table has no [sign] and no [decipher]. *)
Definition p15_table (f : card_fnc) : card_fnc :=
  {| initialized := initialized f;
     enum_keypairs := Some (fun _ => (GNUPG_EOF, ([], None)));
     read_cert := Some (fun _ => (GNUPG_EOF, []));
     sign := Some (fun _ _ _ => (GNUPG_EOF, []));
     decipher := Some (fun _ _ => (GNUPG_EOF, [])) |}.

Definition dinsig_table (f : card_fnc) : card_fnc :=
  {| initialized := initialized f;
     enum_keypairs := Some (fun _ => (GNUPG_EOF, ([], None)));
     read_cert := Some (fun _ => (GNUPG_EOF, []));
     sign := None;
     decipher := None |}.

End Sample.

(** ** The keygrip of a certificate *)

Module Keygrip.

(** The calls of [card_help_get_keygrip] into libksba, libgcrypt and
    the allocator. *)
Inductive call : Set :=
| Ksba_cert_get_public_key
| Gcry_sexp_canon_len
| Gcry_sexp_sscan
| Xfree_p
| Gcry_pk_get_keygrip
| Gcry_sexp_release.

Section Help.

(** The types and functions of libksba and libgcrypt, which are not
    part of the sources.  [ksba_cert_get_public_key] returns an
    allocated buffer or [NULL]; [gcry_sexp_sscan] returns its error code
    and the S-expression it stored; [gcry_pk_get_keygrip] returns the
    20 bytes it wrote to [array], or [NULL]. *)
Variable KsbaCert : Type.
Variable GCRY_SEXP : Type.
Variable ksba_cert_get_public_key : KsbaCert -> option (list byte).
Variable gcry_sexp_canon_len : list byte -> Z.
Variable gcry_sexp_sscan : list byte -> Z -> Z * GCRY_SEXP.
Variable gcry_pk_get_keygrip : GCRY_SEXP -> option (list byte).

(** Lines 53-76.  The result is the return value, the keygrip written
    to [array] when there is one, and the calls made. *)
Definition card_help_get_keygrip (cert : KsbaCert) : Z * option (list byte) * list call :=
  match ksba_cert_get_public_key cert with
  | None => (-1, None, [Ksba_cert_get_public_key])
  | Some p =>
      let n := gcry_sexp_canon_len p in
      if n =? 0 then (-1, None, [Ksba_cert_get_public_key; Gcry_sexp_canon_len])
      else
        let '(rc, s_pkey) := gcry_sexp_sscan p n in
        let tr := [Ksba_cert_get_public_key; Gcry_sexp_canon_len; Gcry_sexp_sscan; Xfree_p] in
        if negb (rc =? 0) then (-1, None, tr)
        else
          match gcry_pk_get_keygrip s_pkey with
          | None => (-1, None, tr ++ [Gcry_pk_get_keygrip; Gcry_sexp_release])
          | Some grip => (0, Some grip, tr ++ [Gcry_pk_get_keygrip; Gcry_sexp_release])
          end
  end.

End Help.

Definition count (c : call) (tr : list call) : nat :=
  List.length (filter (fun x => match c, x with
                                | Ksba_cert_get_public_key, Ksba_cert_get_public_key
                                | Gcry_sexp_canon_len, Gcry_sexp_canon_len
                                | Gcry_sexp_sscan, Gcry_sexp_sscan
                                | Xfree_p, Xfree_p
                                | Gcry_pk_get_keygrip, Gcry_pk_get_keygrip
                                | Gcry_sexp_release, Gcry_sexp_release => true
                                | _, _ => false
                                end) tr).

End Keygrip.

(** ** Auxiliary notions for the statements *)

Module Aux.

Import Session.

(** The value of a hexadecimal digit as [hex_digit] writes it; the
    inverse of [hex_digit], used to show that the rendering loses
    nothing. *)
Definition hex_value (c : ascii) : Z :=
  let n := Z.of_N (N_of_ascii c) in
  if n <? 58 then n - 48 else n - 55.


(** The record at offset [s0] has the tag [tag] and its length field,
    as lines 197-204 read it, declares [len] value bytes that start at
    offset [off]: a single length byte other than 255, or the byte 255
    and two bytes, most significant first. *)
Definition record_at (char_signed : bool) (buffer : list byte) (length tag : Z)
    (s0 off len : Z) : Prop :=
  exists t b1,
    Tlv.rd buffer length s0 = Some t /\ uchar t = tag
    /\ Tlv.rd buffer length (s0 + 1) = Some b1
    /\ ((to_size_t (char_val char_signed b1) <> 255
         /\ len = to_size_t (char_val char_signed b1) /\ off = s0 + 2)
        \/ (char_signed = false /\ uchar b1 = 255
            /\ exists c0 c1,
                 Tlv.rd buffer length (s0 + 2) = Some c0
                 /\ Tlv.rd buffer length (s0 + 3) = Some c1
                 /\ len = uchar c0 * 256 + uchar c1 /\ off = s0 + 4)).

(** A transport whose [sc_pkcs15_bind] stores a card whenever it
    returns 0. *)
Definition bind_stores_card (w : serial_world) : bool :=
  negb (fst (sw_pkcs15_bind w) =? 0)
  || match snd (sw_pkcs15_bind w) with Some _ => true | None => false end.

Definition well_behaved (r : request) : bool :=
  match r with
  | Get_serial_and_stamp w _ _ => bind_stores_card w
  | _ => true
  end.

(** A transport whose [sc_read_binary], when it reports [buflen] bytes,
    has filled that many bytes of [buf]. *)
Definition read_fills_buffer (w : serial_world) : Prop :=
  fst (sw_read_binary w) = file_size (snd (sw_select_file w)) ->
  file_size (snd (sw_select_file w)) <= Z.of_nat (List.length (snd (sw_read_binary w))).

(** The function table that the first use of a card selects, from the
    answer of [sc_pkcs15_bind]. *)
Definition selected_table (card_p15_bind card_dinsig_bind : card_fnc -> card_fnc)
    (w : serial_world) (f : card_fnc) : card_fnc :=
  let f0 := set_initialized f true in
  set_initialized
    (if (fst (sw_pkcs15_bind w) =? 0)
        && match snd (sw_pkcs15_bind w) with Some _ => true | None => false end
     then card_p15_bind f0 else card_dinsig_bind f0)
    true.

(** A card as [card_open] stores it, after any number of requests:
    context and connection are set, and a PKCS-15 card is held only once
    the card is initialized. *)
Definition in_session (c : card_ctx_s) : Prop :=
  ctx c <> None /\ scard c <> None
  /\ (initialized (fnc c) = false -> p15card c = None).

Definition holds_p15 (c : card_ctx_s) : bool :=
  match p15card c with Some _ => true | None => false end.

(** The resources held after a successful [card_open]. *)
Definition held_when_open (p15 : bool) : held :=
  {| h_session := true; h_context := true; h_connection := true;
     h_lock := true; h_p15 := p15 |}.

End Aux.

(** ** Arithmetic of the C types *)

Lemma to_size_t_small z : 0 <= z < 2 ^ size_bits -> to_size_t z = z.
Proof. intros H. unfold to_size_t. now apply Z.mod_small. Qed.

Lemma to_size_t_range z : 0 <= to_size_t z < 2 ^ size_bits.
Proof. unfold to_size_t. apply Z.mod_pos_bound. reflexivity. Qed.

Lemma size_sub_small a b :
  0 <= b <= a -> a < 2 ^ size_bits -> size_sub a b = a - b.
Proof. intros. unfold size_sub. apply to_size_t_small. lia. Qed.

Lemma uchar_range b : 0 <= uchar b < 256.
Proof.
  unfold uchar. pose proof (Byte.to_N_bounded b) as H.
  lia.
Qed.

Lemma char_val_unsigned b : char_val false b = uchar b.
Proof. reflexivity. Qed.

Lemma char_val_small cs b : uchar b < 128 -> char_val cs b = uchar b.
Proof.
  intros H. unfold char_val.
  destruct (128 <=? uchar b) eqn:E.
  - apply Z.leb_le in E. lia.
  - now rewrite andb_false_r.
Qed.

Lemma char_val_signed_high b :
  128 <= uchar b -> to_size_t (char_val true b) = 2 ^ size_bits - 256 + uchar b.
Proof.
  intros H. unfold char_val. pose proof (uchar_range b).
  apply Z.leb_le in H as E. rewrite E. cbn [andb].
  unfold to_size_t.
  replace (uchar b - 256) with (2 ^ size_bits - 256 + uchar b + (-1) * 2 ^ size_bits) by ring.
  rewrite Z.mod_add by (unfold size_bits; lia).
  apply Z.mod_small. unfold size_bits. lia.
Qed.

(** With a signed plain [char] the test [len == 255] of line 199 is
    never true: a length byte is read as a number in [-128, 127]. *)
Lemma signed_len_never_255 b : to_size_t (char_val true b) <> 255.
Proof.
  pose proof (uchar_range b).
  destruct (Z.lt_ge_cases (uchar b) 128) as [L | G].
  - rewrite char_val_small by exact L.
    rewrite to_size_t_small by (unfold size_bits; lia). lia.
  - rewrite char_val_signed_high by exact G. unfold size_bits. lia.
Qed.

(** ** The scanner stays inside the buffer and terminates *)

Lemma rd_inside buffer length i :
  0 <= i < length -> length <= Z.of_nat (List.length buffer) ->
  exists b, Tlv.rd buffer length i = Some b.
Proof.
  intros Hi Hl. unfold Tlv.rd.
  replace (0 <=? i) with true by (symmetry; apply Z.leb_le; lia).
  replace (i <? length) with true by (symmetry; apply Z.ltb_lt; lia).
  cbn [andb].
  destruct (nth_error buffer (Z.to_nat i)) as [b |] eqn:Hn.
  - now exists b.
  - apply nth_error_None in Hn. lia.
Qed.

Lemma rd_some buffer length i b :
  Tlv.rd buffer length i = Some b ->
  0 <= i < length /\ nth_error buffer (Z.to_nat i) = Some b.
Proof.
  unfold Tlv.rd. intros H.
  destruct (0 <=? i) eqn:E1; [| discriminate].
  destruct (i <? length) eqn:E2; [| discriminate].
  apply Z.leb_le in E1. apply Z.ltb_lt in E2. cbn [andb] in H. auto.
Qed.

Lemma half_step n n' : 0 <= n' -> n' + 2 <= n -> n' / 2 + 1 <= n / 2.
Proof. intros. Z.div_mod_to_equations. lia. Qed.

Lemma half_le n : 0 <= n -> (Z.to_nat (n / 2) < S (Z.to_nat n))%nat.
Proof.
  intros. assert (0 <= n / 2 <= n) by (Z.div_mod_to_equations; lia). lia.
Qed.

Section ScannerInvariant.

Variable cs : bool.
Variable buffer : list byte.
Variable length : Z.
Variable tag : Z.

Hypothesis Hbuf : 0 <= length <= Z.of_nat (List.length buffer).
Hypothesis Hsize : length < 2 ^ size_bits.

Local Abbreviation inv := (Tlv.inv length).
Local Abbreviation run := (Tlv.run cs buffer length tag).
Local Abbreviation visits := (Tlv.visits cs buffer length tag).
Local Abbreviation returned := Tlv.returned.

Lemma inv_start : inv 0 length.
Proof. unfold Tlv.inv. lia. Qed.

Lemma read_header_inv s0 n0 :
  inv s0 n0 ->
  match Tlv.read_header cs buffer length s0 n0 with
  | Tlv.NoHeader r => r = Tlv.NotFound
  | Tlv.Header len s n =>
      0 <= len < 2 ^ size_bits /\ s0 + 2 <= s /\ inv s n /\ 2 <= n0
  end.
Proof.
  intros (Hs & Hn & Hsum). unfold Tlv.read_header.
  destruct (n0 <? 2) eqn:E0; [reflexivity |].
  apply Z.ltb_ge in E0.
  destruct (rd_inside buffer length (s0 + 1)) as [b1 Hb1]; [lia | lia |].
  rewrite Hb1. cbv zeta.
  rewrite (size_sub_small n0 2) by lia.
  destruct (to_size_t (char_val cs b1) =? 255) eqn:E255.
  - destruct (n0 - 2 <? 2) eqn:E1; [reflexivity |].
    apply Z.ltb_ge in E1.
    destruct (rd_inside buffer length (s0 + 2)) as [c0 Hc0]; [lia | lia |].
    destruct (rd_inside buffer length (s0 + 2 + 1)) as [c1 Hc1]; [lia | lia |].
    rewrite Hc0, Hc1.
    rewrite size_sub_small by lia.
    split; [apply to_size_t_range |].
    unfold Tlv.inv. lia.
  - split; [apply to_size_t_range |].
    unfold Tlv.inv. lia.
Qed.

Lemma scan_iter_inv s0 n0 :
  inv s0 n0 ->
  match Tlv.scan_iter cs buffer length tag s0 n0 with
  | Tlv.Return r => returned length r
  | Tlv.Next s n => inv s n /\ n + 2 <= n0
  end.
Proof.
  intros Hinv. pose proof (read_header_inv s0 n0 Hinv) as Hh.
  unfold Tlv.scan_iter.
  destruct (Tlv.read_header cs buffer length s0 n0) as [len s n | r].
  - destruct Hh as (Hlen & Hs & (Hs' & Hn & Hsum) & Hn0).
    destruct Hinv as (H0 & H1 & H2).
    destruct (rd_inside buffer length s0) as [t Ht]; [lia | lia |].
    rewrite Ht.
    destruct (uchar t =? tag).
    + unfold Tlv.returned. lia.
    + destruct (n <? len) eqn:E; [exact I |].
      apply Z.ltb_ge in E.
      rewrite size_sub_small by lia.
      unfold Tlv.inv. lia.
  - subst r. exact I.
Qed.

Lemma scan_loop_enough fuel : forall s n,
  inv s n -> (Z.to_nat (n / 2) < fuel)%nat ->
  returned length (fst (Tlv.scan_loop cs buffer length tag fuel s n))
  /\ (1 <= snd (Tlv.scan_loop cs buffer length tag fuel s n) <= Z.to_nat (n / 2) + 1)%nat.
Proof.
  induction fuel as [| fuel IH]; intros s n Hinv Hfuel; [lia |].
  cbn [Tlv.scan_loop].
  pose proof (scan_iter_inv s n Hinv) as Hit.
  destruct (Tlv.scan_iter cs buffer length tag s n) as [r | s' n'].
  - cbn. split; [exact Hit | lia].
  - destruct Hit as (Hinv' & Hdec).
    assert (Hn' : 0 <= n') by (destruct Hinv'; lia).
    pose proof (half_step n n' Hn' Hdec) as Hhalf.
    assert (0 <= n' / 2) by (apply Z.div_pos; lia).
    destruct (IH s' n' Hinv') as (Hr & Hk); [lia |].
    destruct (Tlv.scan_loop cs buffer length tag fuel s' n') as [r k].
    cbn in *. split; [exact Hr | lia].
Qed.

Lemma scan_loop_fuel fuel1 : forall fuel2 s n,
  inv s n -> (Z.to_nat (n / 2) < fuel1)%nat -> (Z.to_nat (n / 2) < fuel2)%nat ->
  Tlv.scan_loop cs buffer length tag fuel1 s n
  = Tlv.scan_loop cs buffer length tag fuel2 s n.
Proof.
  induction fuel1 as [| fuel1 IH]; intros fuel2 s n Hinv H1 H2; [lia |].
  destruct fuel2 as [| fuel2]; [lia |].
  cbn [Tlv.scan_loop].
  pose proof (scan_iter_inv s n Hinv) as Hit.
  destruct (Tlv.scan_iter cs buffer length tag s n) as [r | s' n']; [reflexivity |].
  destruct Hit as (Hinv' & Hdec).
  assert (Hn' : 0 <= n') by (destruct Hinv'; lia).
  pose proof (half_step n n' Hn' Hdec) as Hhalf.
  assert (0 <= n' / 2) by (apply Z.div_pos; lia).
  rewrite (IH fuel2 s' n'); [reflexivity | exact Hinv' | lia | lia].
Qed.

Lemma run_start : Tlv.find_simple_tlv cs buffer length tag = run 0 length.
Proof. reflexivity. Qed.

Lemma run_return s n r :
  Tlv.scan_iter cs buffer length tag s n = Tlv.Return r -> run s n = r.
Proof. intros H. unfold Tlv.run. cbn [Tlv.scan_loop]. now rewrite H. Qed.

Lemma run_next s n s' n' :
  inv s n ->
  Tlv.scan_iter cs buffer length tag s n = Tlv.Next s' n' -> run s n = run s' n'.
Proof.
  intros Hinv H.
  pose proof (scan_iter_inv s n Hinv) as Hit. rewrite H in Hit.
  destruct Hit as (Hinv' & Hdec).
  assert (Hn' : 0 <= n') by (destruct Hinv'; lia).
  assert (Hstep : Tlv.scan_loop cs buffer length tag (S (Z.to_nat n)) s n
                  = let '(r, k) := Tlv.scan_loop cs buffer length tag (Z.to_nat n) s' n'
                    in (r, S k)).
  { cbn [Tlv.scan_loop]. now rewrite H. }
  unfold Tlv.run. rewrite Hstep.
  rewrite (scan_loop_fuel (Z.to_nat n) (S (Z.to_nat n')) s' n' Hinv').
  - now destruct (Tlv.scan_loop cs buffer length tag (S (Z.to_nat n')) s' n').
  - pose proof (half_le n' Hn'). lia.
  - now apply half_le.
Qed.

Lemma visits_inv s n : visits s n -> inv s n.
Proof.
  induction 1 as [| s n s' n' _ IH Hstep]; [apply inv_start |].
  pose proof (scan_iter_inv s n IH) as Hit. rewrite Hstep in Hit. tauto.
Qed.

Lemma visits_run s n :
  visits s n -> Tlv.find_simple_tlv cs buffer length tag = run s n.
Proof.
  induction 1 as [| s n s' n' Hv IH Hstep]; [apply run_start |].
  rewrite IH. apply run_next; [now apply visits_inv | exact Hstep].
Qed.

Lemma find_simple_tlv_returned :
  returned length (Tlv.find_simple_tlv cs buffer length tag).
Proof.
  unfold Tlv.find_simple_tlv.
  apply scan_loop_enough; [apply inv_start | apply half_le; lia].
Qed.

End ScannerInvariant.

(** ** Rendering the serial *)

Lemma skipn_nth_error {A} (l : list A) : forall i b,
  nth_error l i = Some b -> skipn i l = b :: skipn (S i) l.
Proof.
  induction l as [| a l IH]; intros [| i] b H; try discriminate.
  - now inversion H.
  - cbn [nth_error] in H. change (skipn (S i) (a :: l)) with (skipn i l).
    rewrite (IH i b H). reflexivity.
Qed.

Lemma render_slice buffer length : forall k off,
  0 <= off -> off + Z.of_nat k <= length ->
  length <= Z.of_nat (List.length buffer) ->
  Serial.render buffer length k off
  = Some (Serial.hex_string (Serial.slice buffer off (Z.of_nat k))).
Proof.
  induction k as [| k IH]; intros off Hoff Hend Hbuf.
  - reflexivity.
  - cbn [Serial.render].
    destruct (rd_inside buffer length off) as [b Hb]; [lia | lia |].
    rewrite Hb. apply rd_some in Hb as (_ & Hnth).
    rewrite IH by lia.
    unfold Serial.slice. rewrite !Nat2Z.id.
    rewrite (skipn_nth_error buffer (Z.to_nat off) b Hnth).
    replace (Z.to_nat (off + 1)) with (S (Z.to_nat off)) by lia.
    reflexivity.
Qed.

Lemma hex2_upper b :
  forallb Serial.is_upper_hex (list_ascii_of_string (Serial.hex2 b)) = true.
Proof. destruct b; reflexivity. Qed.

Lemma hex2_length b : String.length (Serial.hex2 b) = 2%nat.
Proof. reflexivity. Qed.

Lemma list_ascii_app s1 s2 :
  list_ascii_of_string (s1 ++ s2) = (list_ascii_of_string s1 ++ list_ascii_of_string s2)%list.
Proof. induction s1 as [| c s1 IH]; cbn; [reflexivity | now rewrite IH]. Qed.

Lemma string_length_app s1 s2 :
  String.length (s1 ++ s2) = (String.length s1 + String.length s2)%nat.
Proof. induction s1 as [| c s1 IH]; cbn; [reflexivity | now rewrite IH]. Qed.

Lemma hex_string_length bs :
  String.length (Serial.hex_string bs) = (2 * List.length bs)%nat.
Proof.
  induction bs as [| b bs IH]; [reflexivity |].
  cbn [Serial.hex_string fold_right List.length].
  rewrite string_length_app, hex2_length.
  fold (Serial.hex_string bs). rewrite IH. lia.
Qed.

Lemma hex_string_upper bs :
  forallb Serial.is_upper_hex (list_ascii_of_string (Serial.hex_string bs)) = true.
Proof.
  induction bs as [| b bs IH]; [reflexivity |].
  cbn [Serial.hex_string fold_right].
  rewrite list_ascii_app, forallb_app, hex2_upper.
  fold (Serial.hex_string bs). now rewrite IH.
Qed.

Lemma hex_string_nth bs : forall i b,
  nth_error bs i = Some b ->
  substring (2 * i) 2 (Serial.hex_string bs) = Serial.hex2 b.
Proof.
  induction bs as [| a bs IH]; intros [| i] b H; try discriminate.
  - inversion H; subst. cbn [Serial.hex_string fold_right].
    unfold Serial.hex2. cbn. now destruct (fold_right _ _ bs).
  - cbn [nth_error] in H. cbn [Serial.hex_string fold_right].
    fold (Serial.hex_string bs).
    replace (2 * S i)%nat with (S (S (2 * i))) by lia.
    unfold Serial.hex2 at 1. cbn [append substring].
    now apply IH.
Qed.

Lemma slice_length buffer off n :
  0 <= off -> 0 <= n -> off + n <= Z.of_nat (List.length buffer) ->
  Z.of_nat (List.length (Serial.slice buffer off n)) = n.
Proof.
  intros. unfold Serial.slice.
  rewrite length_firstn, length_skipn. lia.
Qed.

(** ** The length checks of the serial extraction *)

Lemma fit_length_fits rest n : n <= rest -> Serial.fit_length rest n = Some n.
Proof.
  intros H. unfold Serial.fit_length.
  now replace (rest <? n) with false by (symmetry; apply Z.ltb_ge; lia).
Qed.

Lemma fit_length_workaround : Serial.fit_length 12 13 = Some 12.
Proof. reflexivity. Qed.

Lemma fit_length_too_long rest n :
  0 <= rest < n -> ~ (n = 13 /\ rest = 12) -> Serial.fit_length rest n = None.
Proof.
  intros H Hno. unfold Serial.fit_length.
  replace (rest <? n) with true by (symmetry; apply Z.ltb_lt; lia).
  destruct (n =? 13) eqn:E13; [| reflexivity].
  apply Z.eqb_eq in E13. subst n.
  rewrite to_size_t_small by (unfold size_bits; lia).
  destruct (rest + 1 =? 13) eqn:E; [| reflexivity].
  apply Z.eqb_eq in E. lia.
Qed.

Lemma fit_length_bound rest n k :
  0 <= rest -> 0 <= n -> Serial.fit_length rest n = Some k -> 0 <= k <= rest.
Proof.
  intros Hr Hn. unfold Serial.fit_length.
  destruct (rest <? n) eqn:E.
  - apply Z.ltb_lt in E.
    destruct (n =? 13) eqn:E13; [| discriminate].
    apply Z.eqb_eq in E13. subst n.
    rewrite to_size_t_small by (unfold size_bits; lia).
    destruct (rest + 1 =? 13) eqn:E1; [| discriminate].
    apply Z.eqb_eq in E1. cbn [andb]. intros H. inversion H; subst k.
    unfold size_sub. rewrite to_size_t_small by (unfold size_bits; lia). lia.
  - apply Z.ltb_ge in E. intros H. inversion H. lia.
Qed.

Section Extraction.

Variable cs : bool.
Variable buffer : list byte.
Variable length : Z.

Hypothesis Hbuf : 0 <= length <= Z.of_nat (List.length buffer).
Hypothesis Hsize : length < 2 ^ size_bits.

Lemma find_iccsn_found off n :
  Tlv.find_simple_tlv cs buffer length 0x5A = Tlv.Found off n ->
  forall ok,
  Serial.find_iccsn cs ok buffer length =
  match Serial.fit_length (length - off) n with
  | None => Err GNUPG_Card_Error
  | Some k =>
      if k =? 0 then Err GNUPG_Card_Error
      else if ok then Ok (Serial.hex_string (Serial.slice buffer off k))
      else Err GNUPG_Out_Of_Core
  end.
Proof.
  intros Hf ok.
  pose proof (find_simple_tlv_returned cs buffer length 0x5A Hbuf Hsize) as Hret.
  rewrite Hf in Hret. cbn [Tlv.returned] in Hret. destruct Hret as (Hoff & Hn).
  unfold Serial.find_iccsn. rewrite Hf.
  rewrite size_sub_small by lia.
  destruct (Serial.fit_length (length - off) n) as [k |] eqn:Hfit; [| reflexivity].
  apply fit_length_bound in Hfit; [| lia | lia].
  destruct (k =? 0); [reflexivity |].
  destruct ok; cbn [negb]; [| reflexivity].
  rewrite <- (Z2Nat.id k) at 2 by lia.
  rewrite render_slice by lia.
  reflexivity.
Qed.

Lemma find_iccsn_defined ok :
  (exists str, Serial.find_iccsn cs ok buffer length = Ok str)
  \/ (exists rc, Serial.find_iccsn cs ok buffer length = Err rc).
Proof.
  pose proof (find_simple_tlv_returned cs buffer length 0x5A Hbuf Hsize) as Hret.
  destruct (Tlv.find_simple_tlv cs buffer length 0x5A) as [off n | | a] eqn:Hf.
  - rewrite (find_iccsn_found off n Hf).
    destruct (Serial.fit_length (length - off) n) as [k |]; [| right; eauto].
    destruct (k =? 0); [right; eauto |].
    destruct ok; [left | right]; eauto.
  - right. unfold Serial.find_iccsn. rewrite Hf. eauto.
  - contradiction.
Qed.

End Extraction.

(** ** Termination of the scanner *)

(** C10, as stated, fails: on the two bytes 01 00 (a record of
    declared length 0 whose tag is not the target) the loop is entered
    twice, the second time to return [NULL]; half the length is 1. *)
Lemma iterations_exceed_half_length :
  Tlv.iterations false [x01; x00] 2 0x5A = 2%nat
  /\ ~ (Z.of_nat (Tlv.iterations false [x01; x00] 2 0x5A) <= 2 / 2).
Proof. split; [reflexivity | vm_compute; intros H; now apply H]. Qed.

(** C10, amended: for every buffer of [length] bytes and every tag the
    scan returns (a pointer into the buffer or [NULL]) after at least
    one and at most [length / 2 + 1] turns of the loop; every turn that
    does not return leaves at least two bytes fewer; and any fuel above
    [length / 2] gives the same result and the same number of turns. *)
Theorem find_simple_tlv_terminates cs buffer length tag :
  0 <= length <= Z.of_nat (List.length buffer) ->
  length < 2 ^ size_bits ->
  Tlv.returned length (Tlv.find_simple_tlv cs buffer length tag)
  /\ 1 <= Z.of_nat (Tlv.iterations cs buffer length tag) <= length / 2 + 1
  /\ (forall s n s' n',
        Tlv.visits cs buffer length tag s n ->
        Tlv.scan_iter cs buffer length tag s n = Tlv.Next s' n' ->
        0 <= n' /\ n' + 2 <= n)
  /\ (forall fuel,
        (Z.to_nat (length / 2) < fuel)%nat ->
        Tlv.scan_loop cs buffer length tag fuel 0 length
        = (Tlv.find_simple_tlv cs buffer length tag,
           Tlv.iterations cs buffer length tag)).
Proof.
  intros Hbuf Hsize.
  assert (Hhalf : 0 <= length / 2) by (apply Z.div_pos; lia).
  pose proof (half_le length (proj1 Hbuf)) as Hfuel.
  destruct (scan_loop_enough cs buffer length tag Hbuf Hsize
              (S (Z.to_nat length)) 0 length (inv_start buffer length Hbuf) Hfuel)
    as (Hret & Hturns).
  repeat split.
  - exact Hret.
  - unfold Tlv.iterations. lia.
  - unfold Tlv.iterations. lia.
  - pose proof (visits_inv cs buffer length tag Hbuf Hsize s n H) as Hinv.
    pose proof (scan_iter_inv cs buffer length tag Hbuf Hsize s n Hinv) as Hit.
    rewrite H0 in Hit. destruct Hit as ((_ & Hn' & _) & _). exact Hn'.
  - pose proof (visits_inv cs buffer length tag Hbuf Hsize s n H) as Hinv.
    pose proof (scan_iter_inv cs buffer length tag Hbuf Hsize s n Hinv) as Hit.
    rewrite H0 in Hit. tauto.
  - intros fuel Hf.
    rewrite (scan_loop_fuel cs buffer length tag Hbuf Hsize fuel (S (Z.to_nat length)) 0 length
               (inv_start buffer length Hbuf) Hf Hfuel).
    unfold Tlv.find_simple_tlv, Tlv.iterations.
    now destruct (Tlv.scan_loop cs buffer length tag (S (Z.to_nat length)) 0 length).
Qed.

Lemma find_simple_tlv_terminates_witness :
  (0 <= 2 <= Z.of_nat (List.length [x01; x00]))
  /\ 2 < 2 ^ size_bits
  /\ 1 <= Z.of_nat (Tlv.iterations true [x01; x00] 2 0x5A) <= 2 / 2 + 1.
Proof.
  assert (H1 : 0 <= 2 <= Z.of_nat (List.length [x01; x00])) by (cbn; lia).
  assert (H2 : 2 < 2 ^ size_bits) by reflexivity.
  split; [exact H1 | split; [exact H2 |]].
  exact (proj1 (proj2 (find_simple_tlv_terminates true [x01; x00] 2 0x5A H1 H2))).
Defined.

(** ** Records that are longer than the buffer *)

Section Overlong.

Variable cs : bool.
Variable buffer : list byte.
Variable length : Z.
Variable tag : Z.

Hypothesis Hbuf : 0 <= length <= Z.of_nat (List.length buffer).
Hypothesis Hsize : length < 2 ^ size_bits.

(** The result of the scan once the loop is at a record whose
    declared length [len] exceeds the [n'] bytes after its header. *)
Lemma overlong_record s n len s' n' t :
  Tlv.visits cs buffer length tag s n ->
  Tlv.read_header cs buffer length s n = Tlv.Header len s' n' ->
  Tlv.rd buffer length s = Some t ->
  n' < len ->
  Tlv.find_simple_tlv cs buffer length tag
  = if uchar t =? tag then Tlv.Found s' len else Tlv.NotFound.
Proof.
  intros Hv Hh Ht Hlong.
  rewrite (visits_run cs buffer length tag Hbuf Hsize s n Hv).
  apply run_return. unfold Tlv.scan_iter. rewrite Hh, Ht.
  destruct (uchar t =? tag); [reflexivity |].
  now replace (n' <? len) with true by (symmetry; apply Z.ltb_lt; lia).
Qed.

Lemma header_rest s n len s' n' :
  Tlv.visits cs buffer length tag s n ->
  Tlv.read_header cs buffer length s n = Tlv.Header len s' n' ->
  0 <= n' /\ n' = length - s' /\ 0 <= len.
Proof.
  intros Hv Hh.
  pose proof (visits_inv cs buffer length tag Hbuf Hsize s n Hv) as Hinv.
  pose proof (read_header_inv cs buffer length Hbuf Hsize s n Hinv) as Hhi.
  rewrite Hh in Hhi. destruct Hhi as (Hlen & _ & (_ & Hn' & Hsum) & _). lia.
Qed.

End Overlong.

(** A record with tag 0x5A that is longer than the buffer: the scanner
    returns it, and the extraction refuses it unless it is 13 bytes
    long with 12 bytes left. *)
Lemma overlong_iccsn cs buffer length s n len s' n' t :
  0 <= length <= Z.of_nat (List.length buffer) ->
  length < 2 ^ size_bits ->
  Tlv.visits cs buffer length 0x5A s n ->
  Tlv.read_header cs buffer length s n = Tlv.Header len s' n' ->
  Tlv.rd buffer length s = Some t ->
  uchar t = 0x5A ->
  n' < len ->
  Tlv.find_simple_tlv cs buffer length 0x5A = Tlv.Found s' len
  /\ 0 <= n' /\ n' = length - s'
  /\ (~ (len = 13 /\ n' = 12) ->
      forall ok, Serial.find_iccsn cs ok buffer length = Err GNUPG_Card_Error).
Proof.
  intros Hbuf Hsize Hv Hh Ht Htag Hlong.
  pose proof (overlong_record cs buffer length 0x5A Hbuf Hsize s n len s' n' t Hv Hh Ht Hlong)
    as Hf.
  replace (uchar t =? 0x5A) with true in Hf by (symmetry; apply Z.eqb_eq; exact Htag).
  destruct (header_rest cs buffer length 0x5A Hbuf Hsize s n len s' n' Hv Hh)
    as (Hn' & Hrest & Hlen).
  repeat split; try assumption.
  intros Hno ok.
  rewrite (find_iccsn_found cs buffer length Hbuf Hsize s' len Hf ok).
  rewrite <- Hrest.
  now rewrite fit_length_too_long by (try lia; exact Hno).
Qed.

(** C1, as stated, fails: in the three bytes 5A 05 01 the record with
    the target tag 0x5A declares five value bytes where one is left,
    and the scanner does not fail: it returns the pointer to the value
    and the length 5 (the comment before [find_simple_tlv] says that it
    does not check whether the value fits). *)
Lemma overlong_match_is_returned :
  Tlv.find_simple_tlv false [x5a; x05; x01] 3 0x5A = Tlv.Found 2 5
  /\ Tlv.find_simple_tlv true [x5a; x05; x01] 3 0x5A = Tlv.Found 2 5
  /\ 3 - 2 < 5.
Proof. repeat split. Qed.

(** C1, amended: for every buffer of [length] bytes, every tag and
    either signedness of plain [char], no read of the scanner or of the
    serial extraction falls outside the buffer.  When the loop is at a
    record whose declared length exceeds the bytes left after its
    header: if the tag is not the target the scan returns [NULL]; if it
    is the target the scan returns the value pointer with the declared
    length, unchecked, and the serial extraction (target 0x5A) then
    fails with [GNUPG_Card_Error] unless the length is 13 with 12 bytes
    left. *)
Theorem overlong_record_is_safe cs buffer length tag :
  0 <= length <= Z.of_nat (List.length buffer) ->
  length < 2 ^ size_bits ->
  Tlv.returned length (Tlv.find_simple_tlv cs buffer length tag)
  /\ (forall ok a, Serial.find_iccsn cs ok buffer length <> Undefined a)
  /\ (forall s n len s' n' t,
        Tlv.visits cs buffer length tag s n ->
        Tlv.read_header cs buffer length s n = Tlv.Header len s' n' ->
        Tlv.rd buffer length s = Some t ->
        n' < len ->
        (uchar t <> tag ->
         Tlv.find_simple_tlv cs buffer length tag = Tlv.NotFound)
        /\ (uchar t = tag ->
            Tlv.find_simple_tlv cs buffer length tag = Tlv.Found s' len
            /\ (tag = 0x5A -> ~ (len = 13 /\ n' = 12) ->
                forall ok,
                Serial.find_iccsn cs ok buffer length = Err GNUPG_Card_Error))).
Proof.
  intros Hbuf Hsize. split; [| split].
  - now apply find_simple_tlv_returned.
  - intros ok a Hu.
    destruct (find_iccsn_defined cs buffer length Hbuf Hsize ok) as [[str H] | [rc H]];
      rewrite H in Hu; discriminate.
  - intros s n len s' n' t Hv Hh Ht Hlong.
    pose proof (overlong_record cs buffer length tag Hbuf Hsize s n len s' n' t Hv Hh Ht Hlong)
      as Hres.
    destruct (header_rest cs buffer length tag Hbuf Hsize s n len s' n' Hv Hh)
      as (Hn' & Hrest & Hlen).
    split.
    + intros Hne. rewrite Hres.
      now replace (uchar t =? tag) with false by (symmetry; apply Z.eqb_neq; exact Hne).
    + intros He.
      assert (Hf : Tlv.find_simple_tlv cs buffer length tag = Tlv.Found s' len).
      { rewrite Hres. now replace (uchar t =? tag) with true by (symmetry; apply Z.eqb_eq; exact He). }
      split; [exact Hf |].
      intros Htag Hno ok. rewrite Htag in Hv, He.
      now apply (overlong_iccsn cs buffer length s n len s' n' t Hbuf Hsize Hv Hh Ht He Hlong).
Qed.

Lemma overlong_record_is_safe_witness :
  (0 <= 3 <= Z.of_nat (List.length [x5a; x05; x01]))
  /\ 3 < 2 ^ size_bits
  /\ Serial.find_iccsn true true [x5a; x05; x01] 3 = Err GNUPG_Card_Error.
Proof.
  assert (H1 : 0 <= 3 <= Z.of_nat (List.length [x5a; x05; x01])) by (cbn; lia).
  assert (H2 : 3 < 2 ^ size_bits) by reflexivity.
  split; [exact H1 | split; [exact H2 |]].
  destruct (overlong_record_is_safe true [x5a; x05; x01] 3 0x5A H1 H2) as (_ & _ & H).
  destruct (H 0 3 5 2 1 x5a) as (_ & Hm).
  - constructor.
  - reflexivity.
  - reflexivity.
  - lia.
  - destruct (Hm eq_refl) as (_ & He).
    apply He; [reflexivity | lia].
Defined.

(** ** The serial number of the GDO file *)

(** C5: when the scanner is at the record with tag 0x5A and the
    declared length [len] exceeds the [n'] bytes that follow the
    header, the extraction succeeds exactly for [len = 13] with
    [n' = 12], and then renders these 12 bytes (given that the string
    can be allocated); for every other such pair it fails with
    [GNUPG_Card_Error], the code of a structural error. *)
Theorem bmi_workaround_is_the_only_exception cs buffer length s n len s' n' t :
  0 <= length <= Z.of_nat (List.length buffer) ->
  length < 2 ^ size_bits ->
  Tlv.visits cs buffer length 0x5A s n ->
  Tlv.read_header cs buffer length s n = Tlv.Header len s' n' ->
  Tlv.rd buffer length s = Some t ->
  uchar t = 0x5A ->
  n' < len ->
  (len = 13 /\ n' = 12 ->
   Serial.find_iccsn cs true buffer length
   = Ok (Serial.hex_string (Serial.slice buffer s' 12))
   /\ Z.of_nat (List.length (Serial.slice buffer s' 12)) = 12
   /\ Serial.find_iccsn cs false buffer length = Err GNUPG_Out_Of_Core)
  /\ (~ (len = 13 /\ n' = 12) ->
      forall ok, Serial.find_iccsn cs ok buffer length = Err GNUPG_Card_Error).
Proof.
  intros Hbuf Hsize Hv Hh Ht Htag Hlong.
  destruct (overlong_iccsn cs buffer length s n len s' n' t Hbuf Hsize Hv Hh Ht Htag Hlong)
    as (Hf & Hn' & Hrest & Hfail).
  pose proof (find_simple_tlv_returned cs buffer length 0x5A Hbuf Hsize) as Hret.
  rewrite Hf in Hret. cbn [Tlv.returned] in Hret.
  split.
  - intros (H13 & H12). subst len.
    rewrite !(find_iccsn_found cs buffer length Hbuf Hsize s' 13 Hf).
    rewrite <- Hrest, H12, fit_length_workaround.
    repeat split. apply slice_length; lia.
  - intros Hno ok. now apply Hfail.
Qed.

Lemma bmi_workaround_is_the_only_exception_witness :
  Serial.find_iccsn true true
    [x5a; x0d; x01; x02; x03; x04; x05; x06; x07; x08; x09; x0a; x0b; x0c] 14
  = Ok "0102030405060708090A0B0C"%string.
Proof.
  pose (buf := [x5a; x0d; x01; x02; x03; x04; x05; x06; x07; x08; x09; x0a; x0b; x0c]).
  assert (H1 : 0 <= 14 <= Z.of_nat (List.length buf)) by (cbn; lia).
  assert (H2 : 14 < 2 ^ size_bits) by reflexivity.
  destruct (bmi_workaround_is_the_only_exception true buf 14 0 14 13 2 12 x5a H1 H2)
    as (Hok & _).
  - constructor.
  - reflexivity.
  - reflexivity.
  - reflexivity.
  - lia.
  - destruct (Hok (conj eq_refl eq_refl)) as (He & _). exact He.
Defined.

(** C7: when the value of tag 0x5A passes the length checks with [k]
    bytes to use, the extraction returns the string made of two upper
    case hexadecimal digits per value byte, in order: it has [2 * k]
    characters, the two at [2 * i] are the digits of byte [i], and
    every character is one of 0-9, A-F (so none is a separator or a
    null).  The buffer 5A 04 DE AD BE EF gives DEADBEEF. *)
Theorem find_iccsn_renders_hex cs buffer length off n k :
  0 <= length <= Z.of_nat (List.length buffer) ->
  length < 2 ^ size_bits ->
  Tlv.find_simple_tlv cs buffer length 0x5A = Tlv.Found off n ->
  Serial.fit_length (length - off) n = Some k ->
  k <> 0 ->
  let value := Serial.slice buffer off k in
  Serial.find_iccsn cs true buffer length = Ok (Serial.hex_string value)
  /\ Z.of_nat (List.length value) = k
  /\ Z.of_nat (String.length (Serial.hex_string value)) = 2 * k
  /\ (forall i b, nth_error value i = Some b ->
        substring (2 * i) 2 (Serial.hex_string value)
        = String (Serial.hex_digit (uchar b / 16))
            (String (Serial.hex_digit (uchar b mod 16)) EmptyString))
  /\ forallb Serial.is_upper_hex (list_ascii_of_string (Serial.hex_string value)) = true
  /\ Serial.find_iccsn cs true [x5a; x04; xde; xad; xbe; xef] 6 = Ok "DEADBEEF"%string.
Proof.
  intros Hbuf Hsize Hf Hfit Hk value.
  pose proof (find_simple_tlv_returned cs buffer length 0x5A Hbuf Hsize) as Hret.
  rewrite Hf in Hret. cbn [Tlv.returned] in Hret.
  assert (Hb : 0 <= k <= length - off)
    by (apply (fit_length_bound (length - off) n k); [lia | lia | exact Hfit]).
  assert (Hlenv : Z.of_nat (List.length value) = k).
  { apply slice_length; lia. }
  split; [| split; [| split; [| split; [| split]]]].
  - rewrite (find_iccsn_found cs buffer length Hbuf Hsize off n Hf), Hfit.
    now replace (k =? 0) with false by (symmetry; apply Z.eqb_neq; exact Hk).
  - exact Hlenv.
  - rewrite hex_string_length. lia.
  - intros i b Hi. now apply hex_string_nth.
  - apply hex_string_upper.
  - destruct cs; reflexivity.
Qed.

Lemma find_iccsn_renders_hex_witness :
  Serial.find_iccsn false true [x5a; x04; xde; xad; xbe; xef] 6 = Ok "DEADBEEF"%string
  /\ Z.of_nat (String.length
       (Serial.hex_string (Serial.slice [x5a; x04; xde; xad; xbe; xef] 2 4))) = 2 * 4.
Proof.
  pose (buf := [x5a; x04; xde; xad; xbe; xef]).
  assert (H1 : 0 <= 6 <= Z.of_nat (List.length buf)) by (cbn; lia).
  assert (H2 : 6 < 2 ^ size_bits) by reflexivity.
  assert (H3 : Tlv.find_simple_tlv false buf 6 0x5A = Tlv.Found 2 4) by reflexivity.
  assert (H4 : Serial.fit_length (6 - 2) 4 = Some 4) by reflexivity.
  assert (H5 : 4 <> 0) by lia.
  destruct (find_iccsn_renders_hex false buf 6 2 4 4 H1 H2 H3 H4 H5)
    as (Hr & _ & Hl & _).
  split; [exact Hr | exact Hl].
Defined.

(** ** The error mapping *)

Lemma map_sc_err_keeps_failure E rc :
  rc <> 0 -> is_error (ErrMap.map_sc_err E rc) = true.
Proof.
  intros H. unfold ErrMap.map_sc_err.
  replace (rc =? 0) with false by (symmetry; now apply Z.eqb_neq).
  repeat match goal with |- context [if ?b then _ else _] => destruct b end;
    reflexivity.
Qed.

(** X18: the codes with a [case] of their own, given that the labels
    are pairwise distinct, as C requires of a [switch]: 0 stays 0 and
    each of the six OpenSC codes gets the GnuPG code of its name. *)
Lemma map_sc_err_enumerated E :
  NoDup (ErrMap.enumerated E) ->
  map (ErrMap.map_sc_err E) (ErrMap.enumerated E)
  = [GNUPG_No_Error; GNUPG_Not_Supported; GNUPG_No_PKCS15_App; GNUPG_Out_Of_Core;
     GNUPG_Card_Not_Present; GNUPG_Card_Removed; GNUPG_Invalid_Card].
Proof.
  unfold ErrMap.enumerated. intros H.
  repeat match goal with
         | H : NoDup (_ :: _) |- _ =>
             let Hn := fresh "Hn" in
             let Hd := fresh "Hd" in
             apply NoDup_cons_iff in H as (Hn & Hd); cbn [In] in Hn
         end.
  cbn [map]. unfold ErrMap.map_sc_err.
  repeat match goal with
         | |- context [?a =? ?b] =>
             let Eq := fresh "Eq" in
             destruct (Z.eqb_spec a b) as [Eq | Eq];
             [ try (exfalso; intuition congruence) | ]
         end;
    try reflexivity; try (exfalso; intuition congruence).
Qed.

(** C8: [map_sc_err] gives every code exactly one value, and the value
    of every code that has no [case] of its own is
    [GNUPG_Card_Error]. *)
Theorem map_sc_err_total_with_default E rc :
  (exists! e, ErrMap.map_sc_err E rc = e)
  /\ (~ In rc (ErrMap.enumerated E) -> ErrMap.map_sc_err E rc = GNUPG_Card_Error).
Proof.
  split.
  - exists (ErrMap.map_sc_err E rc). split; [reflexivity | auto].
  - unfold ErrMap.enumerated. cbn [In]. intros H.
    unfold ErrMap.map_sc_err.
    repeat match goal with
           | |- context [?a =? ?b] =>
               destruct (Z.eqb_spec a b); [exfalso; apply H; auto 10 |]
           end.
    reflexivity.
Qed.

Lemma map_sc_err_total_with_default_witness :
  ~ In (-1900) (ErrMap.enumerated Sample.opensc)
  /\ ErrMap.map_sc_err Sample.opensc (-1900) = GNUPG_Card_Error.
Proof.
  assert (H : ~ In (-1900) (ErrMap.enumerated Sample.opensc)).
  { cbn. intros [H | [H | [H | [H | [H | [H | [H | H]]]]]]];
      try discriminate; exact H. }
  split; [exact H |].
  exact (proj2 (map_sc_err_total_with_default Sample.opensc (-1900)) H).
Defined.

(** ** Opening and closing a card *)

Lemma card_close_null : Session.card_close None = [].
Proof. reflexivity. Qed.

(** The calls of [card_close] are, in this order and each only for a
    pointer that is set: unbind, unlock and disconnect, release the
    context; then the card is freed. *)
Lemma card_close_order c :
  Session.card_close (Some c)
  = ((match Session.p15card c with Some _ => [Session.Sc_pkcs15_unbind] | None => [] end)
     ++ (match Session.scard c with
         | Some _ => [Session.Sc_unlock; Session.Sc_disconnect_card]
         | None => []
         end)
     ++ (match Session.ctx c with Some _ => [Session.Sc_release_context] | None => [] end)
     ++ [Session.Xfree_card])%list.
Proof. reflexivity. Qed.

Ltac open_cases E w :=
  unfold Session.card_open, Session.card_open_body;
  destruct w as [calloc [rc sctx] presence [rc1 sc] rc2];
  cbn [Session.ow_xtrycalloc Session.ow_establish_context
       Session.ow_detect_card_presence Session.ow_connect_card Session.ow_lock];
  destruct calloc; cbn [negb];
  [ destruct (Z.eqb_spec rc 0) as [-> | Hrc]; cbn [negb];
    [ destruct (Session.reader_count sctx <=? Session.reader _) eqn:Hreaders;
      [ | destruct (Z.eqb_spec presence 1) as [-> | Hpresence]; cbn [negb];
          [ destruct (Z.eqb_spec rc1 0) as [-> | Hrc1]; cbn [negb];
            [ destruct (Z.eqb_spec rc2 0) as [-> | Hrc2]; cbn [negb];
              [ | rewrite (map_sc_err_keeps_failure E rc2 Hrc2) ]
            | rewrite (map_sc_err_keeps_failure E rc1 Hrc1) ]
          | ] ]
    | rewrite (map_sc_err_keeps_failure E rc Hrc) ]
  | ].

(** X21: a reader without a card: [card_open] returns
    [GNUPG_Card_Not_Present], stores no card, does not try to connect,
    and closes what it acquired, the context and the card structure. *)
Lemma card_open_no_card E w sctx :
  Session.ow_xtrycalloc w = true ->
  Session.ow_establish_context w = (0, sctx) ->
  0 < Session.reader_count sctx ->
  Session.ow_detect_card_presence w <> 1 ->
  Session.card_open E w
  = (GNUPG_Card_Not_Present, None,
     [Session.Xtrycalloc true; Session.Sc_establish_context 0;
      Session.Sc_detect_card_presence (Session.ow_detect_card_presence w);
      Session.Sc_release_context; Session.Xfree_card]).
Proof.
  intros H1 H2 H3 H4. unfold Session.card_open, Session.card_open_body.
  rewrite H1, H2. cbn [negb Z.eqb].
  cbn [Session.reader Session.zeroed_card Session.set_ctx].
  replace (Session.reader_count sctx <=? 0) with false by (symmetry; apply Z.leb_gt; lia).
  replace (Session.ow_detect_card_presence w =? 1) with false
    by (symmetry; now apply Z.eqb_neq).
  reflexivity.
Qed.

Example card_open_empty_reader :
  Session.card_open Sample.opensc Sample.empty_reader
  = (GNUPG_Card_Not_Present, None,
     [Session.Xtrycalloc true; Session.Sc_establish_context 0;
      Session.Sc_detect_card_presence 0;
      Session.Sc_release_context; Session.Xfree_card]).
Proof. reflexivity. Qed.

(** X20: [card_open] stores a card exactly when it returns 0; when
    it fails it releases only what it acquired and all of it, except
    when [sc_lock] is the call that fails. *)
Lemma card_open_teardown E w :
  let '(rc, rcard, calls) := Session.card_open E w in
  (is_error rc = true <-> rcard = None)
  /\ ((exists rc2, rc2 <> 0 /\ In (Session.Sc_lock rc2) calls)
      \/ (Session.releases_only_acquired calls = true
          /\ (is_error rc = true ->
              Session.after_calls Session.nothing_held calls
              = Some Session.nothing_held))).
Proof.
  open_cases E w; cbn -[Z.eqb];
    (split;
     [split; intros H;
      first [reflexivity | discriminate H | now apply map_sc_err_keeps_failure] |]);
    first
      [ solve [left; exists rc2; split; [assumption | auto 10]]
      | right; unfold Session.releases_only_acquired; cbn -[Z.eqb];
        repeat match goal with
          | H : ?r <> 0 |- context [?r =? 0] => rewrite (proj2 (Z.eqb_neq r 0) H)
          end;
        cbn; split; [reflexivity | intros H; first [reflexivity | discriminate H]] ].
Qed.

(** C9: a card is in the reader and [sc_lock] fails with -1.
    [card_open] then calls [card_close], which calls [sc_unlock] on the
    card although the lock was not acquired. *)
Theorem card_open_failed_lock_calls_unlock :
  Session.card_open Sample.opensc (Sample.reader_with_card (-1))
  = (GNUPG_Card_Error, None,
     [Session.Xtrycalloc true; Session.Sc_establish_context 0;
      Session.Sc_detect_card_presence 1; Session.Sc_connect_card 0;
      Session.Sc_lock (-1);
      Session.Sc_unlock; Session.Sc_disconnect_card;
      Session.Sc_release_context; Session.Xfree_card])
  /\ Session.after_calls Session.nothing_held
       [Session.Xtrycalloc true; Session.Sc_establish_context 0;
        Session.Sc_detect_card_presence 1; Session.Sc_connect_card 0;
        Session.Sc_lock (-1)]
     = Some {| Session.h_session := true; Session.h_context := true;
               Session.h_connection := true; Session.h_lock := false;
               Session.h_p15 := false |}
  /\ Session.releases_only_acquired
       (snd (Session.card_open Sample.opensc (Sample.reader_with_card (-1))))
     = false.
Proof. repeat split. Qed.

(** ** Binding the card application on first use *)

Lemma bind_attempts_app tr1 tr2 :
  Session.bind_attempts (tr1 ++ tr2)
  = (Session.bind_attempts tr1 + Session.bind_attempts tr2)%nat.
Proof. unfold Session.bind_attempts. now rewrite filter_app, length_app. Qed.

Lemma read_iccsn_no_bind E cs w :
  Session.bind_attempts (snd (Session.read_iccsn E cs w)) = 0%nat.
Proof.
  unfold Session.read_iccsn.
  destruct (Session.sw_select_file w) as [rc file].
  destruct (Session.sw_read_binary w) as [rc1 buf].
  repeat match goal with
         | |- context [if ?b then _ else _] => destruct b
         end; reflexivity.
Qed.

Section Binding.

Variable E : opensc_h.
Variable cs : bool.
Variable card_p15_bind : Session.card_fnc -> Session.card_fnc.
Variable card_dinsig_bind : Session.card_fnc -> Session.card_fnc.

Local Abbreviation bind := (Session.bind_on_first_use card_p15_bind card_dinsig_bind).
Local Abbreviation serve := (Session.serve E cs card_p15_bind card_dinsig_bind).
Local Abbreviation serve_all := (Session.serve_all E cs card_p15_bind card_dinsig_bind).

Lemma bind_when_bound w c :
  Session.initialized (Session.fnc c) = true -> bind w c = (c, []).
Proof. intros H. unfold Session.bind_on_first_use. now rewrite H. Qed.

Lemma bind_when_unbound w c :
  Session.initialized (Session.fnc c) = false ->
  Session.initialized (Session.fnc (fst (bind w c))) = true
  /\ Session.bind_attempts (snd (bind w c)) = 1%nat.
Proof.
  intros H. unfold Session.bind_on_first_use. rewrite H.
  destruct (Session.sw_pkcs15_bind w) as [rc p15].
  destruct (Session.p15card _); split; reflexivity.
Qed.

Lemma serve_serial w c :
  serve c (Session.Get_serial_and_stamp w true true)
  = (fst (bind w c), (snd (bind w c) ++ snd (Session.read_iccsn E cs w))%list).
Proof.
  unfold Session.serve, Session.card_get_serial_and_stamp. cbn [negb orb].
  destruct (bind w c) as [c' tr].
  now destruct (Session.read_iccsn E cs w) as [r tr1].
Qed.

Lemma serve_without_binding c r :
  Session.reaches_binding r = false -> serve c r = (c, []).
Proof.
  destruct r as [w serial stamp | | | |]; try reflexivity.
  cbn [Session.reaches_binding]. intros H.
  unfold Session.serve, Session.card_get_serial_and_stamp.
  destruct serial, stamp; try discriminate; reflexivity.
Qed.

Lemma serve_bound c r :
  Session.initialized (Session.fnc c) = true ->
  fst (serve c r) = c /\ Session.bind_attempts (snd (serve c r)) = 0%nat.
Proof.
  intros H. destruct (Session.reaches_binding r) eqn:Hr.
  - destruct r as [w serial stamp | | | |]; try discriminate.
    cbn [Session.reaches_binding] in Hr.
    apply andb_true_iff in Hr as (-> & ->).
    rewrite serve_serial, bind_when_bound by exact H.
    split; [reflexivity |]. cbn [fst snd app]. apply read_iccsn_no_bind.
  - now rewrite serve_without_binding.
Qed.

Lemma serve_all_bound rs : forall c,
  Session.initialized (Session.fnc c) = true ->
  fst (serve_all c rs) = c /\ Session.bind_attempts (snd (serve_all c rs)) = 0%nat.
Proof.
  induction rs as [| r rs IH]; intros c H; [split; reflexivity |].
  cbn [Session.serve_all].
  destruct (serve_bound c r H) as (Hc & Hb).
  destruct (serve c r) as [c1 tr1]. cbn [fst snd] in Hc, Hb. subst c1.
  destruct (IH c H) as (Hc' & Hb').
  destruct (serve_all c rs) as [c2 tr2]. cbn [fst snd] in *.
  split; [exact Hc' |]. rewrite bind_attempts_app. lia.
Qed.

Lemma serve_all_unbound rs : forall c,
  Session.initialized (Session.fnc c) = false ->
  Session.bind_attempts (snd (serve_all c rs))
  = (if existsb Session.reaches_binding rs then 1 else 0)%nat
  /\ Session.initialized (Session.fnc (fst (serve_all c rs)))
     = existsb Session.reaches_binding rs.
Proof.
  induction rs as [| r rs IH]; intros c H; [now split |].
  cbn [Session.serve_all existsb].
  destruct (Session.reaches_binding r) eqn:Hr.
  - destruct r as [w serial stamp | | | |]; try discriminate.
    cbn [Session.reaches_binding] in Hr.
    apply andb_true_iff in Hr as (-> & ->).
    rewrite serve_serial.
    destruct (bind_when_unbound w c H) as (Hi & Hb).
    destruct (serve_all_bound rs (fst (bind w c)) Hi) as (Hc' & Hb').
    destruct (serve_all (fst (bind w c)) rs) as [c2 tr2]. cbn [fst snd orb] in *.
    subst c2. split; [| exact Hi].
    rewrite !bind_attempts_app, Hb, Hb', read_iccsn_no_bind. reflexivity.
  - rewrite serve_without_binding by exact Hr.
    destruct (IH c H) as (Hb & Hi).
    destruct (serve_all c rs) as [c2 tr2]. cbn [fst snd orb app] in *.
    now split.
Qed.

End Binding.

(** C2, as stated, fails: on the card that [card_open] stores, which
    is unbound, each of the four operations returns
    [GNUPG_Card_Not_Initialized]; after all four the card is as it was
    and no call was made, so no binding was attempted. *)
Lemma four_operations_do_not_bind :
  Session.initialized (Session.fnc Sample.opened) = false
  /\ Session.card_enum_keypairs (Some Sample.opened) 0 true
     = (GNUPG_Card_Not_Initialized, None)
  /\ Session.card_read_cert (Some Sample.opened) (Some "3F005015.01"%string) true true
     = (GNUPG_Card_Not_Initialized, None)
  /\ Session.card_sign (Some Sample.opened) "3F005015.01"%string 2 Sample.some_args
     = (GNUPG_Card_Not_Initialized, None)
  /\ Session.card_decipher (Some Sample.opened) "3F005015.01"%string Sample.some_args
     = (GNUPG_Card_Not_Initialized, None)
  /\ Session.serve_all Sample.opensc false Sample.p15_table Sample.dinsig_table
       Sample.opened Sample.four_operations
     = (Sample.opened, []).
Proof. repeat split. Qed.

(** C2, amended: on an unbound card the four operations, called with
    arguments that pass their checks, return
    [GNUPG_Card_Not_Initialized]; only serial retrieval with a serial
    and a stamp pointer binds.  Over any sequence of requests on a card
    that starts unbound, [sc_pkcs15_bind] is called once if the
    sequence holds such a retrieval and never otherwise, and the card
    is bound at the end exactly in the first case.  A request on a
    bound card leaves the card, with its function table, as it is and
    does not call [sc_pkcs15_bind]. *)
Theorem binding_is_triggered_by_serial_retrieval_only
    E cs card_p15_bind card_dinsig_bind card rs :
  Session.initialized (Session.fnc card) = false ->
  (forall idx, 0 <= idx ->
     Session.card_enum_keypairs (Some card) idx true
     = (GNUPG_Card_Not_Initialized, None))
  /\ (forall id,
        Session.card_read_cert (Some card) (Some id) true true
        = (GNUPG_Card_Not_Initialized, None))
  /\ (forall keyidstr hashalgo a,
        Session.crypt_args_ok a = true ->
        Session.card_sign (Some card) keyidstr hashalgo a
        = (GNUPG_Card_Not_Initialized, None))
  /\ (forall keyidstr a,
        Session.crypt_args_ok a = true ->
        Session.card_decipher (Some card) keyidstr a
        = (GNUPG_Card_Not_Initialized, None))
  /\ Session.bind_attempts
       (snd (Session.serve_all E cs card_p15_bind card_dinsig_bind card rs))
     = (if existsb Session.reaches_binding rs then 1 else 0)%nat
  /\ Session.initialized
       (Session.fnc (fst (Session.serve_all E cs card_p15_bind card_dinsig_bind card rs)))
     = existsb Session.reaches_binding rs
  /\ (forall c r,
        Session.initialized (Session.fnc c) = true ->
        fst (Session.serve E cs card_p15_bind card_dinsig_bind c r) = c
        /\ Session.bind_attempts
             (snd (Session.serve E cs card_p15_bind card_dinsig_bind c r)) = 0%nat).
Proof.
  intros H.
  destruct (serve_all_unbound E cs card_p15_bind card_dinsig_bind rs card H) as (Hb & Hi).
  repeat split.
  - intros idx Hidx. unfold Session.card_enum_keypairs. cbn [negb].
    replace (idx <? 0) with false by (symmetry; apply Z.ltb_ge; lia).
    now rewrite H.
  - intros id. unfold Session.card_read_cert. cbn [negb orb]. now rewrite H.
  - intros keyidstr hashalgo a Ha. unfold Session.card_sign. now rewrite Ha, H.
  - intros keyidstr a Ha. unfold Session.card_decipher. now rewrite Ha, H.
  - exact Hb.
  - exact Hi.
  - now apply serve_bound.
  - now apply serve_bound.
Qed.

Lemma binding_is_triggered_by_serial_retrieval_only_witness :
  Session.initialized (Session.fnc Sample.opened) = false
  /\ Session.bind_attempts
       (snd (Session.serve_all Sample.opensc true Sample.p15_table Sample.dinsig_table
               Sample.opened
               (Sample.four_operations
                ++ [Session.Get_serial_and_stamp
                      (Sample.gdo_card (0, Some Sample.p15_ABC123) Sample.silly_gdo)
                      true true;
                    Session.Get_serial_and_stamp
                      (Sample.gdo_card (0, Some Sample.p15_ABC123) Sample.silly_gdo)
                      true true]
                ++ Sample.four_operations)))
     = 1%nat.
Proof.
  assert (H : Session.initialized (Session.fnc Sample.opened) = false) by reflexivity.
  split; [exact H |].
  destruct (binding_is_triggered_by_serial_retrieval_only
              Sample.opensc true Sample.p15_table Sample.dinsig_table Sample.opened
              (Sample.four_operations
                ++ [Session.Get_serial_and_stamp
                      (Sample.gdo_card (0, Some Sample.p15_ABC123) Sample.silly_gdo)
                      true true;
                    Session.Get_serial_and_stamp
                      (Sample.gdo_card (0, Some Sample.p15_ABC123) Sample.silly_gdo)
                      true true]
                ++ Sample.four_operations) H)
    as (_ & _ & _ & _ & Hb & _).
  exact Hb.
Defined.

(** ** The two prefixes of the serial number *)

Lemma starts_with_FF_iff str :
  Session.starts_with_FF str = true <-> exists rest, str = ("FF" ++ rest)%string.
Proof.
  split.
  - destruct str as [| c0 [| c1 rest]]; cbn; try discriminate.
    intros H. apply andb_true_iff in H as (H0 & H1).
    apply Ascii.eqb_eq in H0, H1. subst. now exists rest.
  - intros (rest & ->). reflexivity.
Qed.

(** The two tests of lines 349 and 371 never hold together: the
    placeholder starts with D2. *)
Lemma silly_serial_not_FF c str :
  Session.silly_serial c str = true -> Session.starts_with_FF str = false.
Proof.
  unfold Session.silly_serial. destruct (Session.p15card c); [| discriminate].
  intros H. apply String.eqb_eq in H. now subst str.
Qed.

Lemma get_serial_result E cs p15b dsb w card :
  snd (fst (Session.card_get_serial_and_stamp E cs p15b dsb w (Some card) true true))
  = Session.serial_prefix (fst (Session.bind_on_first_use p15b dsb w card))
      (Session.sw_xtrymalloc_prefix w) (fst (Session.read_iccsn E cs w)).
Proof.
  unfold Session.card_get_serial_and_stamp. cbn [negb orb].
  destruct (Session.bind_on_first_use p15b dsb w card) as [c tr].
  now destruct (Session.read_iccsn E cs w) as [r tr1].
Qed.

(** C3: when the serial rendered from the GDO file is the placeholder
    and the PKCS-15 application is bound, serial retrieval returns
    FF0100 followed by the serial number of the application, or by
    nothing when the application has none (given that the string can be
    allocated).  With the application serial ABC123 the result is
    FF0100ABC123. *)
Theorem placeholder_serial_is_replaced E cs p15b dsb w card p15 :
  Session.p15card (fst (Session.bind_on_first_use p15b dsb w card)) = Some p15 ->
  fst (Session.read_iccsn E cs w) = Ok Session.placeholder ->
  Session.sw_xtrymalloc_prefix w = true ->
  snd (fst (Session.card_get_serial_and_stamp E cs p15b dsb w (Some card) true true))
  = Ok ("FF0100" ++ match Session.serial_number p15 with
                    | Some id => id
                    | None => EmptyString
                    end)%string
  /\ snd (fst (Session.card_get_serial_and_stamp Sample.opensc cs
                 Sample.p15_table Sample.dinsig_table
                 (Sample.gdo_card (0, Some Sample.p15_ABC123) Sample.silly_gdo)
                 (Some Sample.opened) true true))
     = Ok "FF0100ABC123"%string.
Proof.
  intros Hp15 Hr Hm. split.
  - rewrite get_serial_result, Hr, Hm.
    unfold Session.serial_prefix, Session.silly_serial, Session.efser.
    rewrite Hp15. now rewrite String.eqb_refl.
  - destruct cs; reflexivity.
Qed.

Lemma placeholder_serial_is_replaced_witness :
  snd (fst (Session.card_get_serial_and_stamp Sample.opensc true
              Sample.p15_table Sample.dinsig_table
              (Sample.gdo_card (0, Some {| Session.serial_number := None |})
                 Sample.silly_gdo)
              (Some Sample.opened) true true))
  = Ok "FF0100"%string.
Proof.
  refine (proj1 (placeholder_serial_is_replaced Sample.opensc true
                   Sample.p15_table Sample.dinsig_table
                   (Sample.gdo_card (0, Some {| Session.serial_number := None |})
                      Sample.silly_gdo)
                   Sample.opened {| Session.serial_number := None |} _ _ _));
    reflexivity.
Defined.

(** C4: when the serial rendered from the GDO file starts with FF,
    serial retrieval returns it with FF0000 in front (given that the
    string can be allocated); FF112233 becomes FF0000FF112233.  The
    two rules exclude each other: a serial that meets the test of the
    first rule does not start with FF, the first rule is tested first,
    and the result of a retrieval carries the prefix of at most one of
    them. *)
Theorem ff_serial_gets_default_prefix E cs p15b dsb w card rest :
  fst (Session.read_iccsn E cs w) = Ok ("FF" ++ rest)%string ->
  Session.sw_xtrymalloc_prefix w = true ->
  snd (fst (Session.card_get_serial_and_stamp E cs p15b dsb w (Some card) true true))
  = Ok ("FF0000" ++ "FF" ++ rest)%string
  /\ (forall c str,
        Session.silly_serial c str = true -> Session.starts_with_FF str = false)
  /\ (forall c str,
        Session.serial_prefix c true (Ok str)
        = Ok (if Session.silly_serial c str then "FF0100" ++ Session.efser c
              else if Session.starts_with_FF str then "FF0000" ++ str
              else str)%string)
  /\ (forall c, Session.serial_prefix c true (Ok "FF112233"%string)
                = Ok "FF0000FF112233"%string).
Proof.
  intros Hr Hm. split; [| split; [| split]].
  - rewrite get_serial_result, Hr, Hm.
    unfold Session.serial_prefix.
    destruct (Session.silly_serial _ _) eqn:Hs.
    + apply silly_serial_not_FF in Hs. discriminate.
    + reflexivity.
  - apply silly_serial_not_FF.
  - intros c str. unfold Session.serial_prefix.
    destruct (Session.silly_serial c str); [reflexivity |].
    now destruct (Session.starts_with_FF str).
  - intros c. unfold Session.serial_prefix.
    destruct (Session.silly_serial c "FF112233") eqn:Hs; [| reflexivity].
    apply silly_serial_not_FF in Hs. discriminate.
Qed.

Lemma ff_serial_gets_default_prefix_witness :
  snd (fst (Session.card_get_serial_and_stamp Sample.opensc false
              Sample.p15_table Sample.dinsig_table
              (Sample.gdo_card (0, Some Sample.p15_ABC123) Sample.ff_gdo)
              (Some Sample.opened) true true))
  = Ok "FF0000FF112233"%string.
Proof.
  refine (proj1 (ff_serial_gets_default_prefix Sample.opensc false
                   Sample.p15_table Sample.dinsig_table
                   (Sample.gdo_card (0, Some Sample.p15_ABC123) Sample.ff_gdo)
                   Sample.opened "112233"%string _ _));
    reflexivity.
Defined.

(** ** The scanner on well-formed buffers *)

Lemma uchar_byte_of_Z z : 0 <= z < 256 -> uchar (TlvSpec.byte_of_Z z) = z.
Proof.
  intros H. unfold TlvSpec.byte_of_Z, uchar.
  destruct (Byte.of_N (Z.to_N z)) as [b |] eqn:E.
  - apply Byte.to_of_N in E. rewrite E. lia.
  - apply Byte.of_N_None_iff in E. lia.
Qed.

Lemma uchar_xff : uchar xff = 255.
Proof. reflexivity. Qed.

Lemma lor_shiftl_8 h l : 0 <= l < 256 -> Z.lor (Z.shiftl h 8) l = h * 256 + l.
Proof.
  intros Hl.
  assert (Hland : Z.land (Z.shiftl h 8) l = 0).
  { apply Z.bits_inj'. intros m Hm.
    rewrite Z.land_spec, Z.bits_0.
    destruct (Z.lt_ge_cases m 8) as [Hlt | Hge].
    - now rewrite Z.shiftl_spec_low.
    - replace l with (l mod 2 ^ 8) by (apply Z.mod_small; lia).
      rewrite Z.mod_pow2_bits_high by lia. apply andb_false_r. }
  pose proof (Z.add_lor_land (Z.shiftl h 8) l) as H.
  rewrite Hland, Z.add_0_r in H. rewrite H.
  rewrite Z.shiftl_mul_pow2 by lia. reflexivity.
Qed.

Lemma big_endian_16 v :
  0 <= v <= 65535 ->
  to_size_t (Z.lor (Z.shiftl (uchar (TlvSpec.byte_of_Z (v / 256))) 8)
                   (uchar (TlvSpec.byte_of_Z (v mod 256)))) = v.
Proof.
  intros Hv.
  assert (0 <= v / 256 < 256) by (Z.div_mod_to_equations; lia).
  assert (0 <= v mod 256 < 256) by (Z.div_mod_to_equations; lia).
  rewrite !uchar_byte_of_Z by assumption.
  rewrite lor_shiftl_8 by assumption.
  replace (v / 256 * 256 + v mod 256) with v by (Z.div_mod_to_equations; lia).
  apply to_size_t_small. unfold size_bits. lia.
Qed.

Lemma rd_app pre l length i b :
  length = Z.of_nat (List.length (pre ++ l)) ->
  nth_error l i = Some b ->
  Tlv.rd (pre ++ l) length (Z.of_nat (List.length pre) + Z.of_nat i) = Some b.
Proof.
  intros Hlen Hn. unfold Tlv.rd.
  assert (Hi : (i < List.length l)%nat) by (apply nth_error_Some; congruence).
  rewrite length_app in Hlen.
  replace (0 <=? _) with true by (symmetry; apply Z.leb_le; lia).
  replace (_ <? length) with true by (symmetry; apply Z.ltb_lt; lia).
  cbn [andb].
  replace (Z.to_nat (Z.of_nat (List.length pre) + Z.of_nat i))
    with (List.length pre + i)%nat by lia.
  now rewrite nth_error_app2, Nat.add_comm, Nat.add_sub by lia.
Qed.

Lemma encode_length_cons r rs :
  Z.of_nat (List.length (TlvSpec.encode (r :: rs)))
  = Z.of_nat (List.length (TlvSpec.encode_header r)) + TlvSpec.value_length r
    + Z.of_nat (List.length (TlvSpec.encode rs)).
Proof.
  unfold TlvSpec.encode. cbn [flat_map]. fold (TlvSpec.encode rs).
  unfold TlvSpec.encode_record, TlvSpec.value_length.
  rewrite !length_app. lia.
Qed.

Lemma header_length r :
  Z.of_nat (List.length (TlvSpec.encode_header r))
  = if TlvSpec.t_extended r then 4 else 2.
Proof. unfold TlvSpec.encode_header. now destruct (TlvSpec.t_extended r). Qed.

Section Encoded.

Variable cs : bool.
Variable tag : Z.
Variable buffer : list byte.

Local Abbreviation length := (Z.of_nat (List.length buffer)).

Hypothesis Hsize : length < 2 ^ size_bits.

Lemma whole_buffer : 0 <= length <= Z.of_nat (List.length buffer).
Proof. lia. Qed.

(** The header of a readable record, as the scanner decodes it. *)
Lemma read_header_encoded pre r rs :
  buffer = (pre ++ TlvSpec.encode (r :: rs))%list ->
  TlvSpec.readable cs r ->
  let s := Z.of_nat (List.length pre) in
  let hdr := Z.of_nat (List.length (TlvSpec.encode_header r)) in
  Tlv.read_header cs buffer length s (length - s)
  = Tlv.Header (TlvSpec.value_length r) (s + hdr) (length - s - hdr)
  /\ Tlv.rd buffer length s = Some (TlvSpec.t_tag r).
Proof.
  intros Hb (Hwf & Hshort) s hdr.
  assert (Hlen : length = Z.of_nat (List.length (pre ++ TlvSpec.encode (r :: rs))))
    by now rewrite <- Hb.
  pose proof (encode_length_cons r rs) as Hcons.
  pose proof (header_length r) as Hh.
  assert (Hv : 0 <= TlvSpec.value_length r) by (unfold TlvSpec.value_length; lia).
  assert (Hrest : length - s = hdr + TlvSpec.value_length r
                               + Z.of_nat (List.length (TlvSpec.encode rs))).
  { rewrite Hlen, length_app. subst s hdr. lia. }
  assert (Hrd : forall i b,
             nth_error (TlvSpec.encode (r :: rs)) i = Some b ->
             Tlv.rd buffer length (s + Z.of_nat i) = Some b).
  { intros i b Hi. rewrite Hb at 1. subst s. now apply rd_app. }
  unfold TlvSpec.encode in Hrd. cbn [flat_map] in Hrd.
  unfold TlvSpec.encode_record, TlvSpec.encode_header in Hrd.
  unfold TlvSpec.well_formed in Hwf.
  split.
  - unfold Tlv.read_header.
    destruct (TlvSpec.t_extended r) eqn:Hext.
    + (* extended form: plain char is unsigned *)
      assert (Hcs : cs = false).
      { destruct cs; [| reflexivity]. destruct (Hshort eq_refl). congruence. }
      subst cs.
      replace (length - s <? 2) with false by (symmetry; apply Z.ltb_ge; lia).
      pose proof (Hrd 1%nat xff eq_refl) as Hrd1. change (Z.of_nat 1) with 1 in Hrd1.
      pose proof (Hrd 2%nat _ eq_refl) as Hrd2. change (Z.of_nat 2) with 2 in Hrd2.
      pose proof (Hrd 3%nat _ eq_refl) as Hrd3. change (Z.of_nat 3) with 3 in Hrd3.
      replace (s + 3) with (s + 2 + 1) in Hrd3 by lia.
      rewrite Hrd1.
      rewrite char_val_unsigned, uchar_xff.
      rewrite to_size_t_small by (unfold size_bits; lia).
      cbn [Z.eqb Pos.eqb]. cbv zeta.
      rewrite (size_sub_small (length - s) 2) by lia.
      replace (length - s - 2 <? 2) with false by (symmetry; apply Z.ltb_ge; lia).
      rewrite Hrd2, Hrd3.
      rewrite !char_val_unsigned, big_endian_16 by lia.
      rewrite size_sub_small by lia.
      f_equal; lia.
    + replace (length - s <? 2) with false by (symmetry; apply Z.ltb_ge; lia).
      pose proof (Hrd 1%nat _ eq_refl) as Hrd1. change (Z.of_nat 1) with 1 in Hrd1.
      rewrite Hrd1. cbv zeta.
      assert (Hc : char_val cs (TlvSpec.byte_of_Z (TlvSpec.value_length r))
                   = TlvSpec.value_length r).
      { destruct cs.
        - destruct (Hshort eq_refl) as (_ & H128).
          rewrite char_val_small; rewrite uchar_byte_of_Z; lia.
        - rewrite char_val_unsigned, uchar_byte_of_Z; lia. }
      rewrite Hc.
      rewrite to_size_t_small by (unfold size_bits; lia).
      replace (TlvSpec.value_length r =? 255) with false
        by (symmetry; apply Z.eqb_neq; lia).
      rewrite size_sub_small by lia.
      f_equal; lia.
  - replace s with (s + Z.of_nat 0) by lia.
    apply Hrd. now destruct (TlvSpec.t_extended r).
Qed.

Lemma run_encoded rs : forall pre,
  buffer = (pre ++ TlvSpec.encode rs)%list ->
  Forall (TlvSpec.readable cs) rs ->
  Tlv.visits cs buffer length tag
    (Z.of_nat (List.length pre)) (length - Z.of_nat (List.length pre)) ->
  Tlv.find_simple_tlv cs buffer length tag
  = match TlvSpec.first_with_tag tag (Z.of_nat (List.length pre)) rs with
    | Some (off, v) => Tlv.Found off (Z.of_nat (List.length v))
    | None => Tlv.NotFound
    end.
Proof.
  induction rs as [| r rs IH]; intros pre Hb Hread Hvis.
  - cbn [TlvSpec.first_with_tag].
    rewrite (visits_run cs buffer length tag whole_buffer Hsize _ _ Hvis).
    apply run_return. unfold Tlv.scan_iter, Tlv.read_header.
    assert (Hl : length = Z.of_nat (List.length pre)).
    { rewrite Hb at 1. unfold TlvSpec.encode. cbn [flat_map]. now rewrite app_nil_r. }
    now replace (length - Z.of_nat (List.length pre) <? 2) with true
      by (symmetry; apply Z.ltb_lt; lia).
  - inversion Hread as [| r' rs' Hr Hrs]; subst r' rs'.
    destruct (read_header_encoded pre r rs Hb Hr) as (Hh & Ht).
    cbv zeta in Hh.
    pose proof (encode_length_cons r rs) as Hcons.
    assert (Hlen : length = Z.of_nat (List.length pre)
                            + Z.of_nat (List.length (TlvSpec.encode (r :: rs)))).
    { rewrite Hb at 1. rewrite length_app. lia. }
    assert (Hv : 0 <= TlvSpec.value_length r) by (unfold TlvSpec.value_length; lia).
    cbn [TlvSpec.first_with_tag].
    destruct (uchar (TlvSpec.t_tag r) =? tag) eqn:Htag.
    + rewrite (visits_run cs buffer length tag whole_buffer Hsize _ _ Hvis).
      apply run_return. unfold Tlv.scan_iter. now rewrite Hh, Ht, Htag.
    + set (s' := Z.of_nat (List.length pre)
                 + Z.of_nat (List.length (TlvSpec.encode_header r))).
      set (n' := length - Z.of_nat (List.length pre)
                 - Z.of_nat (List.length (TlvSpec.encode_header r))).
      assert (Hstep : Tlv.scan_iter cs buffer length tag
                        (Z.of_nat (List.length pre))
                        (length - Z.of_nat (List.length pre))
                      = Tlv.Next (s' + TlvSpec.value_length r)
                                 (n' - TlvSpec.value_length r)).
      { unfold Tlv.scan_iter. rewrite Hh, Ht, Htag. fold s' n'.
        replace (n' <? TlvSpec.value_length r) with false
          by (symmetry; apply Z.ltb_ge; subst n'; lia).
        rewrite size_sub_small by (subst n'; lia). reflexivity. }
      pose proof (Tlv.visits_next cs buffer length tag _ _ _ _ Hvis Hstep) as Hvis'.
      specialize (IH (pre ++ TlvSpec.encode_record r)%list).
      assert (Hpre : Z.of_nat (List.length (pre ++ TlvSpec.encode_record r))
                     = s' + TlvSpec.value_length r).
      { unfold TlvSpec.encode_record, TlvSpec.value_length.
        rewrite !length_app. subst s'. unfold TlvSpec.value_length. lia. }
      rewrite Hpre in IH. apply IH.
      * rewrite Hb. unfold TlvSpec.encode. cbn [flat_map]. now rewrite app_assoc.
      * exact Hrs.
      * replace (length - (s' + TlvSpec.value_length r))
          with (n' - TlvSpec.value_length r) by (subst s' n'; lia).
        exact Hvis'.
Qed.

End Encoded.

(** The value that [first_with_tag] gives is the slice of the encoded
    buffer at the offset it gives. *)
Lemma first_with_tag_slice tag rs : forall pre off v,
  TlvSpec.first_with_tag tag (Z.of_nat (List.length pre)) rs = Some (off, v) ->
  Serial.slice (pre ++ TlvSpec.encode rs) off (Z.of_nat (List.length v)) = v.
Proof.
  induction rs as [| r rs IH]; intros pre off v H; [discriminate |].
  cbn [TlvSpec.first_with_tag] in H.
  unfold TlvSpec.encode. cbn [flat_map]. fold (TlvSpec.encode rs).
  destruct (uchar (TlvSpec.t_tag r) =? tag).
  - inversion H; subst off v. unfold Serial.slice, TlvSpec.encode_record.
    rewrite Nat2Z.id.
    replace (Z.to_nat _) with (List.length (pre ++ TlvSpec.encode_header r))
      by (rewrite length_app; lia).
    replace (pre ++ (TlvSpec.encode_header r ++ TlvSpec.t_value r) ++ TlvSpec.encode rs)%list
      with ((pre ++ TlvSpec.encode_header r)
            ++ (TlvSpec.t_value r ++ TlvSpec.encode rs))%list
      by (now rewrite <- !app_assoc).
    rewrite skipn_app, skipn_all, Nat.sub_diag. cbn [app skipn].
    rewrite firstn_app, firstn_all, Nat.sub_diag. cbn [firstn]. apply app_nil_r.
  - rewrite app_assoc. apply IH.
    rewrite <- H. f_equal.
    unfold TlvSpec.encode_record, TlvSpec.value_length. rewrite !length_app. lia.
Qed.

(** X19: on the encoding of well-formed records the scanner returns
    the value of the first record with the tag, or [NULL] when there is
    none, where plain [char] is unsigned; where it is signed, the same
    holds when every record is in the short form with under 128 value
    bytes. *)
Lemma find_simple_tlv_on_encoded cs tag rs :
  Forall (TlvSpec.readable cs) rs ->
  Z.of_nat (List.length (TlvSpec.encode rs)) < 2 ^ size_bits ->
  Tlv.scan cs (TlvSpec.encode rs) tag = TlvSpec.expected tag rs
  /\ match TlvSpec.first_with_tag tag 0 rs with
     | Some (off, v) =>
         Serial.slice (TlvSpec.encode rs) off (Z.of_nat (List.length v)) = v
     | None => True
     end.
Proof.
  intros Hread Hsize. split.
  - unfold Tlv.scan, TlvSpec.expected.
    apply (run_encoded cs tag (TlvSpec.encode rs) Hsize rs []).
    + reflexivity.
    + exact Hread.
    + cbn [List.length Z.of_nat]. rewrite Z.sub_0_r. constructor.
  - destruct (TlvSpec.first_with_tag tag 0 rs) as [[off v] |] eqn:H; [| exact I].
    apply (first_with_tag_slice tag rs [] off v H).
Qed.

(** C6: where plain [char] is signed, the length byte that line 197
    reads through [const char *s] is a number in [-128, 127], so the
    test [len == 255] of line 199 never holds and a length byte of 0x80
    or more becomes a length near [2^64].  On the well-formed buffer
    5A FF 00 01 AA the scan for 0x5A should return the one value byte
    at offset 4, as it does where plain [char] is unsigned; it returns
    offset 2 with length [2^64 - 1], and the serial extraction fails.
    On a well-formed buffer whose first record has 128 value bytes the
    scan stops with [NULL] and does not reach the record with tag 0x5A
    behind it. *)
Theorem signed_char_misreads_long_lengths :
  TlvSpec.encode Sample.extended_record = [x5a; xff; x00; x01; xaa]
  /\ Forall TlvSpec.well_formed Sample.extended_record
  /\ TlvSpec.expected 0x5A Sample.extended_record = Tlv.Found 4 1
  /\ Tlv.scan false (TlvSpec.encode Sample.extended_record) 0x5A = Tlv.Found 4 1
  /\ Tlv.scan true (TlvSpec.encode Sample.extended_record) 0x5A
     = Tlv.Found 2 (2 ^ 64 - 1)
  /\ Serial.find_iccsn false true (TlvSpec.encode Sample.extended_record) 5
     = Ok "AA"%string
  /\ Serial.find_iccsn true true (TlvSpec.encode Sample.extended_record) 5
     = Err GNUPG_Card_Error
  /\ Forall TlvSpec.well_formed Sample.long_record_first
  /\ TlvSpec.expected 0x5A Sample.long_record_first = Tlv.Found 132 1
  /\ Tlv.scan false (TlvSpec.encode Sample.long_record_first) 0x5A = Tlv.Found 132 1
  /\ Tlv.scan true (TlvSpec.encode Sample.long_record_first) 0x5A = Tlv.NotFound.
Proof.
  assert (Hwf1 : Forall TlvSpec.well_formed Sample.extended_record).
  { repeat constructor. unfold TlvSpec.well_formed. cbn. lia. }
  assert (Hwf2 : Forall TlvSpec.well_formed Sample.long_record_first).
  { repeat constructor; unfold TlvSpec.well_formed; cbn; lia. }
  repeat split; try assumption; vm_compute; reflexivity.
Qed.

(** ** Further properties of the scanner *)







Lemma uchar_high_unsigned b : to_size_t (char_val false b) = uchar b.
Proof.
  rewrite char_val_unsigned. pose proof (uchar_range b).
  apply to_size_t_small. unfold size_bits. lia.
Qed.

Local Opaque Z.shiftl Z.lor.

Lemma scan_iter_found cs buffer length tag s0 n0 off len :
  Tlv.scan_iter cs buffer length tag s0 n0 = Tlv.Return (Tlv.Found off len) ->
  Aux.record_at cs buffer length tag s0 off len.
Proof.
  unfold Tlv.scan_iter, Tlv.read_header, Aux.record_at.
  destruct (n0 <? 2); [discriminate |].
  destruct (Tlv.rd buffer length (s0 + 1)) as [b1 |] eqn:Hb1; [| discriminate].
  cbv zeta.
  destruct (to_size_t (char_val cs b1) =? 255) eqn:E255.
  - apply Z.eqb_eq in E255.
    destruct (size_sub n0 2 <? 2); [discriminate |].
    destruct (Tlv.rd buffer length (s0 + 2)) as [c0 |] eqn:Hc0; [| discriminate].
    destruct (Tlv.rd buffer length (s0 + 2 + 1)) as [c1 |] eqn:Hc1; [| discriminate].
    destruct (Tlv.rd buffer length s0) as [t |] eqn:Ht; [| discriminate].
    destruct (uchar t =? tag) eqn:Htag.
    + intros H. injection H as Hoff Hlen. subst off len. apply Z.eqb_eq in Htag.
      assert (Hcs : cs = false).
      { destruct cs; [| reflexivity]. now apply signed_len_never_255 in E255. }
      subst cs. rewrite uchar_high_unsigned in E255.
      exists t, b1. repeat split; try assumption.
      right. repeat split; try assumption.
      exists c0, c1. replace (s0 + 3) with (s0 + 2 + 1) by lia.
      repeat split; try assumption.
      rewrite (char_val_unsigned c0), (char_val_unsigned c1).
      pose proof (uchar_range c0). pose proof (uchar_range c1).
      rewrite lor_shiftl_8 by lia.
      apply to_size_t_small. unfold size_bits. lia.
      lia.
    + destruct (_ <? _); discriminate.
  - apply Z.eqb_neq in E255.
    destruct (Tlv.rd buffer length s0) as [t |] eqn:Ht; [| discriminate].
    destruct (uchar t =? tag) eqn:Htag.
    + intros H. injection H as Hoff Hlen. subst off len. apply Z.eqb_eq in Htag.
      exists t, b1. repeat split; try assumption.
      left. repeat split; assumption.
    + destruct (_ <? _); discriminate.
Qed.

Local Transparent Z.shiftl Z.lor.

Lemma scan_loop_found cs buffer length tag off len :
  forall fuel s n,
    fst (Tlv.scan_loop cs buffer length tag fuel s n) = Tlv.Found off len ->
    exists s0, Aux.record_at cs buffer length tag s0 off len.
Proof.
  induction fuel as [| fuel IH]; intros s n; [discriminate |].
  cbn [Tlv.scan_loop].
  destruct (Tlv.scan_iter cs buffer length tag s n) as [r | s' n'] eqn:Hit.
  - cbn [fst]. intros ->. exists s. now apply (scan_iter_found cs buffer length tag s n).
  - specialize (IH s' n').
    destruct (Tlv.scan_loop cs buffer length tag fuel s' n') as [r k].
    cbn [fst] in *. exact IH.
Qed.

(** X2: when the scanner returns a value, the value belongs to a record
    whose tag byte is the target: the returned offset is the one just
    after the length field of that record and the returned length is
    the one its length field declares (one byte, or 0xFF and two bytes,
    most significant first). *)
Theorem found_value_follows_matching_tag cs buffer length tag off len :
  Tlv.find_simple_tlv cs buffer length tag = Tlv.Found off len ->
  exists s0, Aux.record_at cs buffer length tag s0 off len.
Proof. unfold Tlv.find_simple_tlv. apply scan_loop_found. Qed.

Lemma found_value_follows_matching_tag_witness :
  exists s0, Aux.record_at false [x01; x00; x5a; xff; x01; x02] 6 0x5A s0 6 258.
Proof.
  apply (found_value_follows_matching_tag false [x01; x00; x5a; xff; x01; x02] 6 0x5A 6 258).
  reflexivity.
Defined.

(** X3: a buffer of [length] bytes none of which is the tag is never
    searched with success: the scanner returns [NULL], and, for the tag
    0x5A, the serial extraction returns [GNUPG_Card_Error]. *)
Theorem absent_tag_is_not_found cs buffer length tag :
  0 <= length <= Z.of_nat (List.length buffer) ->
  length < 2 ^ size_bits ->
  (forall i t, Tlv.rd buffer length i = Some t -> uchar t <> tag) ->
  Tlv.find_simple_tlv cs buffer length tag = Tlv.NotFound
  /\ (tag = 0x5A ->
      forall ok, Serial.find_iccsn cs ok buffer length = Err GNUPG_Card_Error).
Proof.
  intros Hbuf Hsize Habs.
  assert (Hn : Tlv.find_simple_tlv cs buffer length tag = Tlv.NotFound).
  { pose proof (find_simple_tlv_returned cs buffer length tag Hbuf Hsize) as Hret.
    destruct (Tlv.find_simple_tlv cs buffer length tag) as [off len | | a] eqn:Hf.
    - apply scan_loop_found in Hf as (s0 & t & b1 & Ht & Htag & _).
      now apply Habs in Ht.
    - reflexivity.
    - contradiction. }
  split; [exact Hn |].
  intros -> ok. unfold Serial.find_iccsn. now rewrite Hn.
Qed.

Lemma absent_tag_is_not_found_witness :
  Serial.find_iccsn false true [x01; x02; xaa; xbb] 4 = Err GNUPG_Card_Error.
Proof.
  assert (H1 : 0 <= 4 <= Z.of_nat (List.length [x01; x02; xaa; xbb])) by (cbn; lia).
  assert (H2 : 4 < 2 ^ size_bits) by reflexivity.
  refine (proj2 (absent_tag_is_not_found false [x01; x02; xaa; xbb] 4 0x5A H1 H2 _)
            eq_refl true).
  intros i t Hi. apply rd_some in Hi as (Hr & Hn).
  assert (Hc : i = 0 \/ i = 1 \/ i = 2 \/ i = 3) by lia.
  destruct Hc as [-> | [-> | [-> | ->]]]; inversion Hn; subst t; discriminate.
Defined.

(** X4: the length the scanner returns is at most 65535 where plain
    [char] is unsigned; where it is signed it is below 128 or at least
    [2^64 - 128], and the value always starts two bytes after the tag
    (the extended form is never read). *)
Theorem found_length_range cs buffer length tag off len :
  Tlv.find_simple_tlv cs buffer length tag = Tlv.Found off len ->
  (cs = false -> 0 <= len <= 65535)
  /\ (cs = true ->
      (0 <= len < 128 \/ 2 ^ size_bits - 128 <= len < 2 ^ size_bits)
      /\ exists t, Tlv.rd buffer length (off - 2) = Some t /\ uchar t = tag).
Proof.
  intros Hf. unfold Tlv.find_simple_tlv in Hf.
  apply scan_loop_found in Hf as (s0 & t & b1 & Ht & Htag & Hb1 & Hcase).
  pose proof (uchar_range b1) as Hr1.
  split; intros ->.
  - destruct Hcase as [(_ & -> & _) | (_ & _ & c0 & c1 & _ & _ & -> & _)].
    + rewrite uchar_high_unsigned. lia.
    + pose proof (uchar_range c0). pose proof (uchar_range c1). lia.
  - destruct Hcase as [(_ & -> & ->) | (Hcs & _)]; [| discriminate].
    split.
    + destruct (Z.lt_ge_cases (uchar b1) 128) as [L | G].
      * left. rewrite char_val_small by exact L.
        rewrite to_size_t_small by (unfold size_bits; lia). lia.
      * right. rewrite char_val_signed_high by exact G. lia.
    + exists t. replace (s0 + 2 - 2) with s0 by lia. now split.
Qed.

Lemma found_length_range_witness :
  (2 ^ size_bits - 128 <= 2 ^ size_bits - 1 < 2 ^ size_bits)
  \/ 0 <= 2 ^ size_bits - 1 < 128.
Proof.
  destruct (found_length_range true [x5a; xff; x00; x01; xaa] 5 0x5A 2 (2 ^ size_bits - 1))
    as (_ & H).
  - reflexivity.
  - destruct (H eq_refl) as ([Hs | Hl] & _); [right; exact Hs | left; exact Hl].
Defined.

(** ** Further properties of the serial extraction *)

Lemma hex_value_digit d : 0 <= d < 16 -> Aux.hex_value (Serial.hex_digit d) = d.
Proof.
  intros H.
  assert (Hc : d = 0 \/ d = 1 \/ d = 2 \/ d = 3 \/ d = 4 \/ d = 5 \/ d = 6 \/ d = 7
               \/ d = 8 \/ d = 9 \/ d = 10 \/ d = 11 \/ d = 12 \/ d = 13 \/ d = 14
               \/ d = 15) by lia.
  repeat (destruct Hc as [-> | Hc]; [reflexivity |]). now subst d.
Qed.

Lemma uchar_inj a b : uchar a = uchar b -> a = b.
Proof.
  unfold uchar. intros H. apply Nat2Z.inj || idtac.
  assert (Hn : Byte.to_N a = Byte.to_N b) by lia.
  pose proof (Byte.of_to_N a) as Ha. rewrite Hn, Byte.of_to_N in Ha. congruence.
Qed.

Lemma hex2_inj a b : Serial.hex2 a = Serial.hex2 b -> a = b.
Proof.
  unfold Serial.hex2. intros H. injection H as Hlo Hhi.
  pose proof (uchar_range a). pose proof (uchar_range b).
  apply (f_equal Aux.hex_value) in Hlo, Hhi.
  rewrite !hex_value_digit in Hlo, Hhi by (Z.div_mod_to_equations; lia).
  apply uchar_inj. Z.div_mod_to_equations. lia.
Qed.

(** X5: the hexadecimal rendering loses nothing: two byte strings with
    the same rendering are equal, so different serial numbers on the
    card are different strings for the caller. *)
Theorem hex_rendering_is_injective (a b : list byte) :
  Serial.hex_string a = Serial.hex_string b -> a = b.
Proof.
  revert b. induction a as [| x a IH]; intros [| y b] H; try reflexivity;
    try discriminate.
  cbn [Serial.hex_string fold_right] in H.
  fold (Serial.hex_string a) in H. fold (Serial.hex_string b) in H.
  assert (Hx : Serial.hex2 x = Serial.hex2 y).
  { unfold Serial.hex2 in *. cbn [append] in H. now injection H as -> ->. }
  apply hex2_inj in Hx. subst y.
  unfold Serial.hex2 in H. cbn [append] in H. injection H as H.
  f_equal. now apply IH.
Qed.

Lemma hex_rendering_is_injective_witness : [xde; xad] = [xde; xad].
Proof.
  apply (hex_rendering_is_injective [xde; xad] [xde; xad]). reflexivity.
Defined.

Section ExtractionCases.

Variable cs : bool.
Variable buffer : list byte.
Variable length : Z.

Hypothesis Hbuf : 0 <= length <= Z.of_nat (List.length buffer).
Hypothesis Hsize : length < 2 ^ size_bits.

(** What [find_iccsn] returns, by the value length that the checks
    leave. *)
Lemma find_iccsn_cases :
  (exists off n k,
      Tlv.find_simple_tlv cs buffer length 0x5A = Tlv.Found off n
      /\ Serial.fit_length (length - off) n = Some k
      /\ 2 <= off /\ 1 <= k /\ off + k <= length
      /\ (k = n \/ (k = 12 /\ n = 13))
      /\ Serial.find_iccsn cs true buffer length
         = Ok (Serial.hex_string (Serial.slice buffer off k))
      /\ Serial.find_iccsn cs false buffer length = Err GNUPG_Out_Of_Core)
  \/ (forall ok, Serial.find_iccsn cs ok buffer length = Err GNUPG_Card_Error).
Proof.
  pose proof (find_simple_tlv_returned cs buffer length 0x5A Hbuf Hsize) as Hret.
  destruct (Tlv.find_simple_tlv cs buffer length 0x5A) as [off n | | a] eqn:Hf.
  - cbn [Tlv.returned] in Hret.
    pose proof (find_iccsn_found cs buffer length Hbuf Hsize off n Hf) as Hfound.
    destruct (Serial.fit_length (length - off) n) as [k |] eqn:Hfit.
    + assert (Hb : 0 <= k <= length - off)
        by (apply (fit_length_bound (length - off) n k); [lia | lia | exact Hfit]).
      destruct (Z.eqb_spec k 0) as [-> | Hk].
      * right. intros ok. now rewrite Hfound.
      * left. exists off, n, k.
        assert (Hkn : k = n \/ (k = 12 /\ n = 13)).
        { unfold Serial.fit_length in Hfit.
          destruct (length - off <? n).
          - destruct ((n =? 13) && _) eqn:E; [| discriminate].
            apply andb_true_iff in E as (E & _). apply Z.eqb_eq in E. subst n.
            right. split; [| reflexivity]. now inversion Hfit.
          - left. now inversion Hfit. }
        split; [reflexivity |]. split; [exact Hfit |].
        split; [lia |]. split; [lia |]. split; [lia |]. split; [exact Hkn |].
        split; now rewrite Hfound.
    + right. intros ok. now rewrite Hfound.
  - right. intros ok. unfold Serial.find_iccsn. now rewrite Hf.
  - contradiction.
Qed.

End ExtractionCases.

(** X6: the serial extraction returns a string, fails with
    [GNUPG_Card_Error], or fails with [GNUPG_Out_Of_Core], and the
    last only when nothing but the allocation stands in the way: the
    allocation fails exactly on the buffers that give a string when it
    succeeds, and a structural error does not depend on it. *)
Theorem find_iccsn_allocates_after_all_checks cs buffer length :
  0 <= length <= Z.of_nat (List.length buffer) ->
  length < 2 ^ size_bits ->
  ((exists str, Serial.find_iccsn cs true buffer length = Ok str)
   /\ Serial.find_iccsn cs false buffer length = Err GNUPG_Out_Of_Core)
  \/ (forall ok, Serial.find_iccsn cs ok buffer length = Err GNUPG_Card_Error).
Proof.
  intros Hbuf Hsize.
  destruct (find_iccsn_cases cs buffer length Hbuf Hsize)
    as [(off & n & k & _ & _ & _ & _ & _ & _ & Hok & Hfail) | Herr].
  - left. split; [now exists (Serial.hex_string (Serial.slice buffer off k)) | exact Hfail].
  - now right.
Qed.

Lemma find_iccsn_allocates_after_all_checks_witness :
  ((exists str, Serial.find_iccsn false true [x5a; x01; xaa] 3 = Ok str)
   /\ Serial.find_iccsn false false [x5a; x01; xaa] 3 = Err GNUPG_Out_Of_Core)
  \/ (forall ok, Serial.find_iccsn false ok [x5a; x01; xaa] 3 = Err GNUPG_Card_Error).
Proof.
  apply (find_iccsn_allocates_after_all_checks false [x5a; x01; xaa] 3).
  - cbn. lia.
  - reflexivity.
Defined.

(** X7: a serial that the extraction returns renders at least one and
    at most [length - 2] bytes of the buffer, taken after the first two
    bytes: it is not empty, has an even number of characters, and all
    of them are digits or the letters A-F.  Where plain [char] is
    signed (and the buffer is not within 128 bytes of the largest
    [size_t]) it renders at most 127 bytes. *)
Theorem returned_serial_shape cs ok buffer length str :
  0 <= length <= Z.of_nat (List.length buffer) ->
  length < 2 ^ size_bits ->
  Serial.find_iccsn cs ok buffer length = Ok str ->
  exists off k,
    2 <= off /\ 1 <= k /\ off + k <= length
    /\ str = Serial.hex_string (Serial.slice buffer off k)
    /\ Z.of_nat (String.length str) = 2 * k
    /\ forallb Serial.is_upper_hex (list_ascii_of_string str) = true
    /\ (cs = true -> length < 2 ^ size_bits - 128 -> k <= 127).
Proof.
  intros Hbuf Hsize Hres.
  destruct (find_iccsn_cases cs buffer length Hbuf Hsize)
    as [(off & n & k & Hf & Hfit & Hoff & Hk & Hend & Hkn & Hok & Hfail) | Herr].
  - destruct ok; [| rewrite Hfail in Hres; discriminate].
    rewrite Hok in Hres. injection Hres as <-.
    exists off, k. repeat split; try lia.
    + rewrite hex_string_length.
      pose proof (slice_length buffer off k) as Hl. lia.
    + apply hex_string_upper.
    + intros -> Hsmall. unfold Tlv.find_simple_tlv in Hf.
      apply scan_loop_found in Hf as (s0 & t & b1 & _ & _ & _ & Hcase).
      destruct Hcase as [(_ & Hn & _) | (Hcs & _)]; [| discriminate].
      pose proof (uchar_range b1).
      destruct (Z.lt_ge_cases (uchar b1) 128) as [L | G].
      * rewrite char_val_small in Hn by exact L.
        rewrite to_size_t_small in Hn by (unfold size_bits; lia). lia.
      * rewrite char_val_signed_high in Hn by exact G. unfold size_bits in *. lia.
  - rewrite Herr in Hres. discriminate.
Qed.

Lemma returned_serial_shape_witness :
  exists off k,
    2 <= off /\ 1 <= k /\ off + k <= 6
    /\ "DEADBEEF"%string
       = Serial.hex_string (Serial.slice [x5a; x04; xde; xad; xbe; xef] off k)
    /\ Z.of_nat (String.length "DEADBEEF") = 2 * k
    /\ forallb Serial.is_upper_hex (list_ascii_of_string "DEADBEEF") = true
    /\ (true = true -> 6 < 2 ^ size_bits - 128 -> k <= 127).
Proof.
  apply (returned_serial_shape true true [x5a; x04; xde; xad; xbe; xef] 6 "DEADBEEF").
  - cbn. lia.
  - reflexivity.
  - reflexivity.
Defined.

(** X8: a record with tag 0x5A and no value bytes gives
    [GNUPG_Card_Error], whether or not the string could be
    allocated. *)
Theorem empty_serial_is_refused cs ok buffer length off :
  0 <= length <= Z.of_nat (List.length buffer) ->
  length < 2 ^ size_bits ->
  Tlv.find_simple_tlv cs buffer length 0x5A = Tlv.Found off 0 ->
  Serial.find_iccsn cs ok buffer length = Err GNUPG_Card_Error.
Proof.
  intros Hbuf Hsize Hf.
  pose proof (find_simple_tlv_returned cs buffer length 0x5A Hbuf Hsize) as Hret.
  rewrite Hf in Hret. cbn [Tlv.returned] in Hret.
  rewrite (find_iccsn_found cs buffer length Hbuf Hsize off 0 Hf).
  now rewrite fit_length_fits by lia.
Qed.

Lemma empty_serial_is_refused_witness :
  Serial.find_iccsn false true [x01; x01; xaa; x5a; x00; x5a; x01; xbb] 8
  = Err GNUPG_Card_Error.
Proof.
  apply (empty_serial_is_refused false true [x01; x01; xaa; x5a; x00; x5a; x01; xbb] 8 5).
  - cbn. lia.
  - reflexivity.
  - reflexivity.
Defined.

(** ** Further properties of serial retrieval and of the operations *)

Lemma read_iccsn_outcomes E cs w :
  Aux.read_fills_buffer w ->
  (exists str, fst (Session.read_iccsn E cs w) = Ok str)
  \/ fst (Session.read_iccsn E cs w) = Err GNUPG_Card_Error
  \/ fst (Session.read_iccsn E cs w) = Err GNUPG_Out_Of_Core.
Proof.
  unfold Aux.read_fills_buffer, Session.read_iccsn.
  destruct (Session.sw_select_file w) as [rc file].
  destruct (Session.sw_read_binary w) as [rc1 buf]. cbn [fst snd].
  intros Hfill.
  destruct (negb (rc =? 0)); [right; left; reflexivity |].
  destruct (negb _ || negb _); [right; left; reflexivity |].
  destruct (Z.eqb_spec (Session.file_size file) 0) as [Hz | Hz];
    [right; left; reflexivity |].
  destruct (Z.leb_spec 256 (Session.file_size file)) as [Hbig | Hbig];
    [right; left; reflexivity |].
  cbn [orb].
  destruct (Z.ltb_spec rc1 0) as [Hneg | Hneg]; [right; left; reflexivity |].
  destruct (Z.eqb_spec rc1 (Session.file_size file)) as [Heq | Hne];
    [| right; left; reflexivity].
  cbn [negb fst].
  assert (Hbuf : 0 <= Session.file_size file <= Z.of_nat (List.length buf))
    by (specialize (Hfill Heq); lia).
  assert (Hsize : Session.file_size file < 2 ^ size_bits) by (unfold size_bits; lia).
  destruct (find_iccsn_cases cs buf (Session.file_size file) Hbuf Hsize)
    as [(off & n & k & _ & _ & _ & _ & _ & _ & Hok & Hfail) | Herr].
  - destruct (Session.sw_xtrymalloc_iccsn w).
    + left. rewrite Hok. eauto.
    + right. right. exact Hfail.
  - right. left. apply Herr.
Qed.

(** X9: with a serial and a stamp pointer, serial retrieval returns a
    string or fails with [GNUPG_Card_Error] or [GNUPG_Out_Of_Core],
    whatever the card answers, and reads nothing outside its buffer
    (given that a read which reports the whole file has filled the
    buffer that far).  Without one of the two pointers it returns
    [GNUPG_Invalid_Value], leaves the card unbound as it was and calls
    nothing. *)
Theorem serial_retrieval_outcomes E cs p15b dsb w card :
  Aux.read_fills_buffer w ->
  ((exists str,
      snd (fst (Session.card_get_serial_and_stamp E cs p15b dsb w (Some card) true true))
      = Ok str)
   \/ snd (fst (Session.card_get_serial_and_stamp E cs p15b dsb w (Some card) true true))
      = Err GNUPG_Card_Error
   \/ snd (fst (Session.card_get_serial_and_stamp E cs p15b dsb w (Some card) true true))
      = Err GNUPG_Out_Of_Core)
  /\ (forall serial stamp,
        serial && stamp = false ->
        Session.card_get_serial_and_stamp E cs p15b dsb w (Some card) serial stamp
        = (Some card, Err GNUPG_Invalid_Value, [])).
Proof.
  intros Hfill. split.
  - rewrite get_serial_result.
    destruct (read_iccsn_outcomes E cs w Hfill) as [(str & ->) | [-> | ->]].
    + unfold Session.serial_prefix.
      destruct (Session.silly_serial _ _); [| destruct (Session.starts_with_FF _)];
        try destruct (Session.sw_xtrymalloc_prefix w); eauto.
    + right. left. reflexivity.
    + right. right. reflexivity.
  - intros serial stamp H. unfold Session.card_get_serial_and_stamp.
    destruct serial, stamp; try discriminate; reflexivity.
Qed.

Lemma serial_retrieval_outcomes_witness :
  Session.card_get_serial_and_stamp Sample.opensc true Sample.p15_table Sample.dinsig_table
    (Sample.gdo_card (0, Some Sample.p15_ABC123) Sample.ff_gdo)
    (Some Sample.opened) true false
  = (Some Sample.opened, Err GNUPG_Invalid_Value, []).
Proof.
  refine (proj2 (serial_retrieval_outcomes Sample.opensc true
                   Sample.p15_table Sample.dinsig_table
                   (Sample.gdo_card (0, Some Sample.p15_ABC123) Sample.ff_gdo)
                   Sample.opened _) true false eq_refl).
  unfold Aux.read_fills_buffer. cbn. lia.
Defined.

Lemma get_serial_card E cs p15b dsb w card :
  fst (fst (Session.card_get_serial_and_stamp E cs p15b dsb w (Some card) true true))
  = Some (fst (Session.bind_on_first_use p15b dsb w card)).
Proof.
  unfold Session.card_get_serial_and_stamp. cbn [negb orb].
  destruct (Session.bind_on_first_use p15b dsb w card) as [c tr].
  now destruct (Session.read_iccsn E cs w) as [r tr1].
Qed.

Lemma bind_selects p15b dsb w card :
  Session.initialized (Session.fnc card) = false ->
  let c' := fst (Session.bind_on_first_use p15b dsb w card) in
  Session.fnc c' = Aux.selected_table p15b dsb w (Session.fnc card)
  /\ Session.p15card c'
     = (if fst (Session.sw_pkcs15_bind w) =? 0 then snd (Session.sw_pkcs15_bind w)
        else None)
  /\ Session.ctx c' = Session.ctx card
  /\ Session.scard c' = Session.scard card
  /\ Session.reader c' = Session.reader card.
Proof.
  intros H. unfold Session.bind_on_first_use, Aux.selected_table. rewrite H.
  destruct (Session.sw_pkcs15_bind w) as [rc p15]. cbn [fst snd].
  destruct (rc =? 0); [destruct p15 |]; cbn; repeat split.
Qed.

(** X10: the first serial retrieval on an unbound card binds it
    whether or not the retrieval itself succeeds: the card it leaves
    is initialized, holds the PKCS-15 card exactly when
    [sc_pkcs15_bind] returned 0, has the function table of
    [card_p15_bind] when a PKCS-15 card is held and that of
    [card_dinsig_bind] otherwise, and keeps its reader, context and
    connection. *)
Theorem first_use_selects_the_driver E cs p15b dsb w card :
  Session.initialized (Session.fnc card) = false ->
  exists c',
    fst (fst (Session.card_get_serial_and_stamp E cs p15b dsb w (Some card) true true))
    = Some c'
    /\ Session.initialized (Session.fnc c') = true
    /\ Session.fnc c' = Aux.selected_table p15b dsb w (Session.fnc card)
    /\ Session.p15card c'
       = (if fst (Session.sw_pkcs15_bind w) =? 0 then snd (Session.sw_pkcs15_bind w)
          else None)
    /\ Session.ctx c' = Session.ctx card
    /\ Session.scard c' = Session.scard card
    /\ Session.reader c' = Session.reader card.
Proof.
  intros H. exists (fst (Session.bind_on_first_use p15b dsb w card)).
  destruct (bind_selects p15b dsb w card H) as (Hf & Hp & Hc & Hs & Hr).
  split; [apply get_serial_card |].
  split; [rewrite Hf; reflexivity |]. now repeat split.
Qed.

Lemma first_use_selects_the_driver_witness :
  exists c',
    fst (fst (Session.card_get_serial_and_stamp Sample.opensc false
                Sample.p15_table Sample.dinsig_table
                (Sample.gdo_card (-1503, None) [])
                (Some Sample.opened) true true))
    = Some c'
    /\ Session.initialized (Session.fnc c') = true
    /\ Session.sign (Session.fnc c') = None.
Proof.
  destruct (first_use_selects_the_driver Sample.opensc false
              Sample.p15_table Sample.dinsig_table
              (Sample.gdo_card (-1503, None) []) Sample.opened eq_refl)
    as (c' & Hc & Hi & Hf & _).
  exists c'. split; [exact Hc | split; [exact Hi |]].
  rewrite Hf. reflexivity.
Defined.

(** X11: a failing [sc_pkcs15_bind] is not reported: on the same
    card, two transports that differ only in the non-zero code (and the
    pointer) that [sc_pkcs15_bind] answers give the same card and the
    same result of serial retrieval. *)
Theorem failed_bind_is_not_reported E cs p15b dsb w w' card :
  Session.sw_select_file w = Session.sw_select_file w' ->
  Session.sw_read_binary w = Session.sw_read_binary w' ->
  Session.sw_xtrymalloc_iccsn w = Session.sw_xtrymalloc_iccsn w' ->
  Session.sw_xtrymalloc_prefix w = Session.sw_xtrymalloc_prefix w' ->
  fst (Session.sw_pkcs15_bind w) <> 0 ->
  fst (Session.sw_pkcs15_bind w') <> 0 ->
  fst (Session.card_get_serial_and_stamp E cs p15b dsb w (Some card) true true)
  = fst (Session.card_get_serial_and_stamp E cs p15b dsb w' (Some card) true true).
Proof.
  intros Hs Hr Hm1 Hm2 Hb Hb'.
  assert (Hbind : fst (Session.bind_on_first_use p15b dsb w card)
                  = fst (Session.bind_on_first_use p15b dsb w' card)).
  { unfold Session.bind_on_first_use.
    destruct (Session.initialized (Session.fnc card)); [reflexivity |].
    destruct (Session.sw_pkcs15_bind w) as [rc p]. destruct (Session.sw_pkcs15_bind w') as [rc' p'].
    cbn [fst] in Hb, Hb'.
    replace (rc =? 0) with false by (symmetry; now apply Z.eqb_neq).
    replace (rc' =? 0) with false by (symmetry; now apply Z.eqb_neq).
    reflexivity. }
  assert (Hread : fst (Session.read_iccsn E cs w) = fst (Session.read_iccsn E cs w')).
  { unfold Session.read_iccsn. rewrite <- Hs, <- Hr, <- Hm1.
    destruct (Session.sw_select_file w) as [rc file].
    destruct (Session.sw_read_binary w) as [rc1 buf].
    repeat match goal with |- context [if ?b then _ else _] => destruct b end;
      reflexivity. }
  pose proof (get_serial_card E cs p15b dsb w card) as Hc.
  pose proof (get_serial_card E cs p15b dsb w' card) as Hc'.
  pose proof (get_serial_result E cs p15b dsb w card) as Ho.
  pose proof (get_serial_result E cs p15b dsb w' card) as Ho'.
  rewrite Hbind, Hread, Hm2 in *.
  destruct (fst (Session.card_get_serial_and_stamp E cs p15b dsb w (Some card) true true)).
  destruct (fst (Session.card_get_serial_and_stamp E cs p15b dsb w' (Some card) true true)).
  cbn [fst snd] in *. congruence.
Qed.

Lemma failed_bind_is_not_reported_witness :
  fst (Session.card_get_serial_and_stamp Sample.opensc false
         Sample.p15_table Sample.dinsig_table
         (Sample.gdo_card (-1503, None) Sample.ff_gdo) (Some Sample.opened) true true)
  = fst (Session.card_get_serial_and_stamp Sample.opensc false
           Sample.p15_table Sample.dinsig_table
           (Sample.gdo_card (-1404, Some Sample.p15_ABC123) Sample.ff_gdo)
           (Some Sample.opened) true true).
Proof.
  apply failed_bind_is_not_reported; try reflexivity; cbn; lia.
Defined.

Lemma append_inj_l p s1 s2 : (p ++ s1 = p ++ s2)%string -> s1 = s2.
Proof.
  induction p as [| c p IH]; cbn; intros H; [exact H |].
  injection H as H. now apply IH.
Qed.

Lemma prefix_not_FF s r :
  Session.starts_with_FF s = false -> s <> ("FF" ++ r)%string.
Proof. intros H ->. discriminate. Qed.

(** X12: the prefixes keep the results apart.  With the prefix
    allocated, the result of the two rules starts with FF0100 exactly
    when the first rule applied (the serial was the placeholder on a
    PKCS-15 card); and two serials to which the first rule does not
    apply and which give the same result are equal. *)
Theorem prefixes_keep_serials_apart c s1 :
  exists r,
    Session.serial_prefix c true (Ok s1) = Ok r
    /\ ((exists rest, r = ("FF0100" ++ rest)%string) <-> Session.silly_serial c s1 = true)
    /\ (forall s2,
          Session.silly_serial c s1 = false ->
          Session.silly_serial c s2 = false ->
          Session.serial_prefix c true (Ok s2) = Ok r ->
          s1 = s2).
Proof.
  unfold Session.serial_prefix.
  destruct (Session.silly_serial c s1) eqn:Hs1.
  - eexists. split; [reflexivity |]. split.
    + split; [reflexivity | intros _; eauto].
    + discriminate.
  - destruct (Session.starts_with_FF s1) eqn:Hf1.
    + eexists. split; [reflexivity |]. split.
      * split; [| discriminate]. intros (rest & H). discriminate H.
      * intros s2 _ Hs2. rewrite Hs2.
        destruct (Session.starts_with_FF s2) eqn:Hf2; intros H.
        -- cbn in H. congruence.
        -- assert (Hr : ("FF0000" ++ s1)%string = s2) by congruence.
           apply (f_equal Session.starts_with_FF) in Hr. cbn in Hr. congruence.
    + eexists. split; [reflexivity |]. split.
      * split; [| discriminate]. intros (rest & ->). discriminate Hf1.
      * intros s2 _ Hs2. rewrite Hs2.
        destruct (Session.starts_with_FF s2) eqn:Hf2; intros H.
        -- assert (Hr : ("FF0000" ++ s2)%string = s1) by congruence.
           apply (f_equal Session.starts_with_FF) in Hr. cbn in Hr. congruence.
        -- congruence.
Qed.

(** X13: a backend function is reached only after every check of the
    public operation has passed, and then its answer is returned as it
    is: an operation returns an output exactly when its arguments are
    present (and the index is not negative), the card is initialized
    and the function table has the function, and the code and output
    are then those of the function. *)
Theorem backend_is_reached_only_after_the_checks c :
  (forall idx keygrip rc out,
      Session.card_enum_keypairs (Some c) idx keygrip = (rc, Some out)
      <-> keygrip = true /\ 0 <= idx /\ Session.initialized (Session.fnc c) = true
          /\ exists f, Session.enum_keypairs (Session.fnc c) = Some f /\ f idx = (rc, out))
  /\ (forall certidstr cert ncert rc out,
        Session.card_read_cert (Some c) certidstr cert ncert = (rc, Some out)
        <-> cert = true /\ ncert = true /\ Session.initialized (Session.fnc c) = true
            /\ exists id f, certidstr = Some id
                 /\ Session.read_cert (Session.fnc c) = Some f /\ f id = (rc, out))
  /\ (forall keyidstr hashalgo a rc out,
        Session.card_sign (Some c) keyidstr hashalgo a = (rc, Some out)
        <-> Session.crypt_args_ok a = true /\ Session.initialized (Session.fnc c) = true
            /\ exists f, Session.sign (Session.fnc c) = Some f
                 /\ f keyidstr hashalgo (Session.the_indata a) = (rc, out))
  /\ (forall keyidstr a rc out,
        Session.card_decipher (Some c) keyidstr a = (rc, Some out)
        <-> Session.crypt_args_ok a = true /\ Session.initialized (Session.fnc c) = true
            /\ exists f, Session.decipher (Session.fnc c) = Some f
                 /\ f keyidstr (Session.the_indata a) = (rc, out)).
Proof.
  split; [| split; [| split]].
  - intros idx keygrip rc out. unfold Session.card_enum_keypairs.
    destruct keygrip; cbn [negb]; [| split; [discriminate | intros (H & _); discriminate]].
    destruct (Z.ltb_spec idx 0); [split; [discriminate | intros (_ & H0 & _); lia] |].
    destruct (Session.initialized (Session.fnc c)); cbn [negb];
      [| split; [discriminate | intros (_ & _ & H0 & _); discriminate]].
    destruct (Session.enum_keypairs (Session.fnc c)) as [f |].
    + unfold Session.forward. destruct (f idx) as [rc0 out0] eqn:Hfi. cbn [fst snd]. split.
      * intros H0. injection H0 as -> ->. repeat split; try lia. now exists f.
      * intros (_ & _ & _ & f0 & Hf & Hr). injection Hf as <-. congruence.
    + split; [discriminate | intros (_ & _ & _ & f0 & Hf & _); discriminate].
  - intros certidstr cert ncert rc out. unfold Session.card_read_cert.
    destruct certidstr as [id |];
      [| split; [discriminate | intros (_ & _ & _ & id & f & H0 & _); discriminate]].
    destruct cert; cbn [negb orb];
      [| split; [discriminate | intros (H0 & _); discriminate]].
    destruct ncert; cbn [negb];
      [| split; [discriminate | intros (_ & H0 & _); discriminate]].
    destruct (Session.initialized (Session.fnc c)); cbn [negb];
      [| split; [discriminate | intros (_ & _ & H0 & _); discriminate]].
    destruct (Session.read_cert (Session.fnc c)) as [f |].
    + unfold Session.forward. destruct (f id) as [rc0 out0] eqn:Hfid. cbn [fst snd]. split.
      * intros H0. injection H0 as -> ->. repeat split. now exists id, f.
      * intros (_ & _ & _ & id0 & f0 & Hid & Hf & Hr).
        injection Hid as <-. injection Hf as <-. congruence.
    + split; [discriminate | intros (_ & _ & _ & id0 & f0 & _ & Hf & _); discriminate].
  - intros keyidstr hashalgo a rc out. unfold Session.card_sign.
    destruct (Session.crypt_args_ok a); cbn [negb];
      [| split; [discriminate | intros (H0 & _); discriminate]].
    destruct (Session.initialized (Session.fnc c)); cbn [negb];
      [| split; [discriminate | intros (_ & H0 & _); discriminate]].
    destruct (Session.sign (Session.fnc c)) as [f |].
    + unfold Session.forward.
      destruct (f keyidstr hashalgo (Session.the_indata a)) as [rc0 out0] eqn:Hr0.
      cbn [fst snd]. split.
      * intros H0. injection H0 as -> ->. repeat split. now exists f.
      * intros (_ & _ & f0 & Hf & Hr). injection Hf as <-. congruence.
    + split; [discriminate | intros (_ & _ & f0 & Hf & _); discriminate].
  - intros keyidstr a rc out. unfold Session.card_decipher.
    destruct (Session.crypt_args_ok a); cbn [negb];
      [| split; [discriminate | intros (H0 & _); discriminate]].
    destruct (Session.initialized (Session.fnc c)); cbn [negb];
      [| split; [discriminate | intros (_ & H0 & _); discriminate]].
    destruct (Session.decipher (Session.fnc c)) as [f |].
    + unfold Session.forward.
      destruct (f keyidstr (Session.the_indata a)) as [rc0 out0] eqn:Hr0.
      cbn [fst snd]. split.
      * intros H0. injection H0 as -> ->. repeat split. now exists f.
      * intros (_ & _ & f0 & Hf & Hr). injection Hf as <-. congruence.
    + split; [discriminate | intros (_ & _ & f0 & Hf & _); discriminate].
Qed.

(** X14: once a serial retrieval has reached the binding on an unbound
    card, whether it then succeeded or not, the four operations no
    longer answer [GNUPG_Card_Not_Initialized]: with arguments that
    pass the checks each one forwards to the function of the selected
    table and returns its answer, or answers
    [GNUPG_Unsupported_Operation] when the table has no such
    function. *)
Theorem operations_after_first_use E cs p15b dsb w card idx id keyidstr hashalgo a :
  Session.initialized (Session.fnc card) = false ->
  0 <= idx ->
  Session.crypt_args_ok a = true ->
  exists c',
    fst (fst (Session.card_get_serial_and_stamp E cs p15b dsb w (Some card) true true))
    = Some c'
    /\ Session.card_enum_keypairs (Some c') idx true
       = match Session.enum_keypairs (Aux.selected_table p15b dsb w (Session.fnc card)) with
         | Some f => Session.forward (f idx)
         | None => (GNUPG_Unsupported_Operation, None)
         end
    /\ Session.card_read_cert (Some c') (Some id) true true
       = match Session.read_cert (Aux.selected_table p15b dsb w (Session.fnc card)) with
         | Some f => Session.forward (f id)
         | None => (GNUPG_Unsupported_Operation, None)
         end
    /\ Session.card_sign (Some c') keyidstr hashalgo a
       = match Session.sign (Aux.selected_table p15b dsb w (Session.fnc card)) with
         | Some f => Session.forward (f keyidstr hashalgo (Session.the_indata a))
         | None => (GNUPG_Unsupported_Operation, None)
         end
    /\ Session.card_decipher (Some c') keyidstr a
       = match Session.decipher (Aux.selected_table p15b dsb w (Session.fnc card)) with
         | Some f => Session.forward (f keyidstr (Session.the_indata a))
         | None => (GNUPG_Unsupported_Operation, None)
         end.
Proof.
  intros H Hidx Ha. exists (fst (Session.bind_on_first_use p15b dsb w card)).
  destruct (bind_selects p15b dsb w card H) as (Hf & _).
  split; [apply get_serial_card |].
  unfold Session.card_enum_keypairs, Session.card_read_cert, Session.card_sign,
    Session.card_decipher.
  rewrite Hf, Ha. cbn [negb orb].
  replace (idx <? 0) with false by (symmetry; apply Z.ltb_ge; lia).
  repeat split.
Qed.

Lemma operations_after_first_use_witness :
  exists c',
    fst (fst (Session.card_get_serial_and_stamp Sample.opensc false
                Sample.p15_table Sample.dinsig_table
                (Sample.gdo_card (-1503, None) [])
                (Some Sample.opened) true true))
    = Some c'
    /\ Session.card_enum_keypairs (Some c') 0 true = (GNUPG_EOF, Some ([], None))
    /\ Session.card_sign (Some c') "3F005015.01"%string 2 Sample.some_args
       = (GNUPG_Unsupported_Operation, None).
Proof.
  destruct (operations_after_first_use Sample.opensc false
              Sample.p15_table Sample.dinsig_table
              (Sample.gdo_card (-1503, None) []) Sample.opened
              0 "3F005015.01"%string "3F005015.01"%string 2 Sample.some_args)
    as (c' & Hc & He & _ & Hs & _).
  - reflexivity.
  - lia.
  - reflexivity.
  - exists c'. split; [exact Hc | split; [exact He | exact Hs]].
Defined.

(** ** The life of a session *)

(** X15: [card_open] succeeds exactly when the card structure is
    allocated, the context is established, a reader exists, the card is
    present, and connecting and locking succeed; it then stores an
    unbound card with the context and the connection, and has made
    these five calls and no other. *)
Theorem card_open_succeeds_exactly_when E w :
  (fst (fst (Session.card_open E w)) = GNUPG_No_Error
   <-> Session.ow_xtrycalloc w = true
       /\ fst (Session.ow_establish_context w) = 0
       /\ 0 < Session.reader_count (snd (Session.ow_establish_context w))
       /\ Session.ow_detect_card_presence w = 1
       /\ fst (Session.ow_connect_card w) = 0
       /\ Session.ow_lock w = 0)
  /\ (fst (fst (Session.card_open E w)) = GNUPG_No_Error ->
      Session.card_open E w
      = (GNUPG_No_Error,
         Some (Session.set_scard
                 (Session.set_ctx Session.zeroed_card
                    (Some (snd (Session.ow_establish_context w))))
                 (Some (snd (Session.ow_connect_card w)))),
         [Session.Xtrycalloc true; Session.Sc_establish_context 0;
          Session.Sc_detect_card_presence 1; Session.Sc_connect_card 0;
          Session.Sc_lock 0])).
Proof.
  open_cases E w; cbn -[Z.eqb Z.ltb Z.leb];
    try apply Z.leb_le in Hreaders; try apply Z.leb_gt in Hreaders;
    cbn [Session.reader Session.zeroed_card Session.set_ctx] in *;
    (split; [split |]);
    try (intros H; first [discriminate H | reflexivity]);
    try (intros (Ha & Hb & Hc & Hd & He & Hf); first [discriminate Ha | lia]);
    try (repeat split; first [reflexivity | lia]);
    try (intros H;
         match goal with
         | Hn : ?r <> 0 |- _ =>
             pose proof (map_sc_err_keeps_failure E r Hn) as Hk;
             rewrite H in Hk; discriminate Hk
         end).
Qed.

Lemma after_calls_app h tr1 tr2 :
  Session.after_calls h (tr1 ++ tr2)
  = match Session.after_calls h tr1 with
    | Some h' => Session.after_calls h' tr2
    | None => None
    end.
Proof.
  revert h. induction tr1 as [| c tr1 IH]; intros h; [reflexivity |].
  cbn [app Session.after_calls].
  destruct (Session.after_call h c); [apply IH | reflexivity].
Qed.

Lemma read_iccsn_keeps_held E cs w h :
  Session.after_calls h (snd (Session.read_iccsn E cs w)) = Some h.
Proof.
  unfold Session.read_iccsn.
  destruct (Session.sw_select_file w) as [rc file].
  destruct (Session.sw_read_binary w) as [rc1 buf].
  repeat match goal with |- context [if ?b then _ else _] => destruct b end;
    reflexivity.
Qed.

Lemma serve_keeps_session E cs p15b dsb c r :
  Aux.in_session c ->
  Aux.well_behaved r = true ->
  Aux.in_session (fst (Session.serve E cs p15b dsb c r))
  /\ Session.after_calls (Aux.held_when_open (Aux.holds_p15 c))
       (snd (Session.serve E cs p15b dsb c r))
     = Some (Aux.held_when_open (Aux.holds_p15 (fst (Session.serve E cs p15b dsb c r)))).
Proof.
  intros Hin Hw.
  destruct (Session.reaches_binding r) eqn:Hr.
  - destruct r as [w serial stamp | | | |]; try discriminate.
    cbn [Session.reaches_binding] in Hr. apply andb_true_iff in Hr as (-> & ->).
    rewrite serve_serial. cbn [fst snd].
    rewrite after_calls_app.
    destruct (Session.initialized (Session.fnc c)) eqn:Hi.
    + rewrite bind_when_bound by exact Hi. cbn [fst snd Session.after_calls].
      split; [exact Hin | apply read_iccsn_keeps_held].
    + destruct Hin as (Hctx & Hsc & Hp).
      destruct (bind_selects p15b dsb w c Hi) as (Hf & Hp15 & Hc' & Hs' & _).
      cbv zeta in *.
      assert (Hnone : Aux.holds_p15 c = false) by (unfold Aux.holds_p15; now rewrite Hp).
      assert (Htr : snd (Session.bind_on_first_use p15b dsb w c)
                    = [Session.Sc_pkcs15_bind (fst (Session.sw_pkcs15_bind w));
                       if Aux.holds_p15 (fst (Session.bind_on_first_use p15b dsb w c))
                       then Session.Card_p15_bind else Session.Card_dinsig_bind]).
      { unfold Aux.holds_p15, Session.bind_on_first_use. rewrite Hi.
        destruct (Session.sw_pkcs15_bind w) as [rc p15]. cbn [fst].
        destruct (rc =? 0); [destruct p15 |]; reflexivity. }
      assert (Hheld : Aux.holds_p15 (fst (Session.bind_on_first_use p15b dsb w c))
                      = (fst (Session.sw_pkcs15_bind w) =? 0)).
      { unfold Aux.holds_p15. rewrite Hp15.
        unfold Aux.well_behaved, Aux.bind_stores_card in Hw.
        destruct (fst (Session.sw_pkcs15_bind w) =? 0); [| reflexivity].
        cbn [negb orb] in Hw. now destruct (snd (Session.sw_pkcs15_bind w)). }
      split.
      * unfold Aux.in_session. rewrite Hc', Hs', Hf.
        repeat split; try assumption. intros Hinit. discriminate Hinit.
      * rewrite Htr, Hnone, Hheld.
        cbn [Session.after_calls Session.after_call Aux.held_when_open
             Session.h_session Session.h_context Session.h_connection
             Session.h_lock Session.h_p15].
        destruct (fst (Session.sw_pkcs15_bind w) =? 0);
          cbn [Session.after_call]; apply read_iccsn_keeps_held.
  - rewrite serve_without_binding by exact Hr. cbn [fst snd Session.after_calls].
    now split.
Qed.

Lemma serve_all_keeps_session E cs p15b dsb rs : forall c,
  Aux.in_session c ->
  forallb Aux.well_behaved rs = true ->
  Aux.in_session (fst (Session.serve_all E cs p15b dsb c rs))
  /\ Session.after_calls (Aux.held_when_open (Aux.holds_p15 c))
       (snd (Session.serve_all E cs p15b dsb c rs))
     = Some (Aux.held_when_open
               (Aux.holds_p15 (fst (Session.serve_all E cs p15b dsb c rs)))).
Proof.
  induction rs as [| r rs IH]; intros c Hin Hw; [now split |].
  cbn [forallb] in Hw. apply andb_true_iff in Hw as (Hr & Hrs).
  cbn [Session.serve_all].
  destruct (serve_keeps_session E cs p15b dsb c r Hin Hr) as (Hin1 & Hh1).
  destruct (Session.serve E cs p15b dsb c r) as [c1 tr1]. cbn [fst snd] in Hin1, Hh1.
  destruct (IH c1 Hin1 Hrs) as (Hin2 & Hh2).
  destruct (Session.serve_all E cs p15b dsb c1 rs) as [c2 tr2]. cbn [fst snd] in *.
  split; [exact Hin2 |]. now rewrite after_calls_app, Hh1.
Qed.

Lemma card_close_releases_session c :
  Aux.in_session c ->
  Session.after_calls (Aux.held_when_open (Aux.holds_p15 c)) (Session.card_close (Some c))
  = Some Session.nothing_held.
Proof.
  intros (Hctx & Hsc & _). unfold Session.card_close, Aux.holds_p15.
  destruct (Session.ctx c); [| contradiction].
  destruct (Session.scard c); [| contradiction].
  destruct (Session.p15card c); reflexivity.
Qed.

Lemma card_open_stores_session E w c tr :
  Session.card_open E w = (GNUPG_No_Error, Some c, tr) ->
  Aux.in_session c /\ Aux.holds_p15 c = false
  /\ Session.initialized (Session.fnc c) = false
  /\ Session.after_calls Session.nothing_held tr = Some (Aux.held_when_open false).
Proof.
  open_cases E w; cbn -[Z.eqb]; intros H; try discriminate H;
    try (injection H as Hrc _ _;
         match goal with
         | Hn : ?r <> 0 |- _ =>
             pose proof (map_sc_err_keeps_failure E r Hn) as Hk;
             rewrite Hrc in Hk; discriminate Hk
         end).
  injection H as <- <-.
  unfold Aux.in_session, Aux.holds_p15. cbn. repeat split; discriminate.
Qed.

(** X16: a session from [card_open] to [card_close] releases what it
    acquired and nothing else.  After a successful [card_open], any
    sequence of requests (on a transport whose [sc_pkcs15_bind] stores
    a card when it returns 0) and [card_close], every release follows
    its acquisition and no resource is held at the end. *)
Theorem open_serve_close_releases_everything E cs p15b dsb w rs c tr :
  Session.card_open E w = (GNUPG_No_Error, Some c, tr) ->
  forallb Aux.well_behaved rs = true ->
  Session.after_calls Session.nothing_held
    (tr ++ snd (Session.serve_all E cs p15b dsb c rs)
        ++ Session.card_close (Some (fst (Session.serve_all E cs p15b dsb c rs))))
  = Some Session.nothing_held.
Proof.
  intros Hopen Hw.
  destruct (card_open_stores_session E w c tr Hopen) as (Hin & Hp & _ & Htr).
  destruct (serve_all_keeps_session E cs p15b dsb rs c Hin Hw) as (Hin' & Hserve).
  rewrite Hp in Hserve.
  rewrite after_calls_app, Htr. cbv beta iota.
  rewrite after_calls_app, Hserve. cbv beta iota.
  now apply card_close_releases_session.
Qed.

Lemma open_serve_close_releases_everything_witness :
  Session.after_calls Session.nothing_held
    (snd (Session.card_open Sample.opensc (Sample.reader_with_card 0))
     ++ snd (Session.serve_all Sample.opensc false Sample.p15_table Sample.dinsig_table
               Sample.opened
               (Sample.four_operations
                ++ [Session.Get_serial_and_stamp
                      (Sample.gdo_card (0, Some Sample.p15_ABC123) Sample.silly_gdo)
                      true true]))
     ++ Session.card_close
          (Some (fst (Session.serve_all Sample.opensc false
                        Sample.p15_table Sample.dinsig_table Sample.opened
                        (Sample.four_operations
                         ++ [Session.Get_serial_and_stamp
                               (Sample.gdo_card (0, Some Sample.p15_ABC123)
                                  Sample.silly_gdo)
                               true true])))))
  = Some Session.nothing_held.
Proof.
  apply (open_serve_close_releases_everything Sample.opensc false
           Sample.p15_table Sample.dinsig_table (Sample.reader_with_card 0)); reflexivity.
Defined.

(** ** Further properties of the error mapping *)

(** X17: [map_sc_err] keeps success and failure apart: its value is 0
    exactly for the code 0. *)
Theorem map_sc_err_success_iff E rc :
  ErrMap.map_sc_err E rc = GNUPG_No_Error <-> rc = 0.
Proof.
  split.
  - intros H. destruct (Z.eq_dec rc 0) as [Hz | Hz]; [exact Hz |].
    pose proof (map_sc_err_keeps_failure E rc Hz) as Hk.
    rewrite H in Hk. discriminate Hk.
  - intros ->. reflexivity.
Qed.

Lemma map_sc_err_enumerated_witness :
  map (ErrMap.map_sc_err Sample.opensc) (ErrMap.enumerated Sample.opensc)
  = [GNUPG_No_Error; GNUPG_Not_Supported; GNUPG_No_PKCS15_App; GNUPG_Out_Of_Core;
     GNUPG_Card_Not_Present; GNUPG_Card_Removed; GNUPG_Invalid_Card].
Proof.
  apply (map_sc_err_enumerated Sample.opensc).
  repeat constructor; cbn; intuition discriminate.
Defined.

Lemma find_simple_tlv_on_encoded_witness :
  Tlv.scan false (TlvSpec.encode Sample.long_record_first) 0x5A
  = TlvSpec.expected 0x5A Sample.long_record_first.
Proof.
  refine (proj1 (find_simple_tlv_on_encoded false 0x5A Sample.long_record_first _ _)).
  - repeat constructor; unfold TlvSpec.well_formed; cbn; try lia; discriminate.
  - vm_compute. reflexivity.
Defined.

Lemma card_open_no_card_witness :
  Session.card_open Sample.opensc Sample.empty_reader
  = (GNUPG_Card_Not_Present, None,
     [Session.Xtrycalloc true; Session.Sc_establish_context 0;
      Session.Sc_detect_card_presence 0;
      Session.Sc_release_context; Session.Xfree_card]).
Proof.
  apply (card_open_no_card Sample.opensc Sample.empty_reader {| Session.reader_count := 1 |});
    try reflexivity; cbn; lia.
Defined.

(** ** The keygrip helper *)

(** X22: [card_help_get_keygrip] returns 0 with the keygrip, or -1
    without one; it returns 0 exactly when the certificate has a public
    key, the key has a canonical length other than 0, it scans without
    error and its keygrip is computed.  The buffer of the public key is
    freed exactly when it exists and its canonical length is not 0 (a
    key that is not a proper S-expression is not freed), and the
    scanned S-expression is released exactly when the scan
    succeeded. *)
Theorem card_help_get_keygrip_result
    (KsbaCert GCRY_SEXP : Type)
    (pubkey : KsbaCert -> option (list byte))
    (canon_len : list byte -> Z)
    (sscan : list byte -> Z -> Z * GCRY_SEXP)
    (keygrip : GCRY_SEXP -> option (list byte))
    (cert : KsbaCert) :
  let '(rc, grip, tr) :=
    Keygrip.card_help_get_keygrip KsbaCert GCRY_SEXP pubkey canon_len sscan keygrip cert in
  ((rc = 0 /\ grip <> None) \/ (rc = -1 /\ grip = None))
  /\ (rc = 0 <->
      exists p g,
        pubkey cert = Some p /\ canon_len p <> 0
        /\ fst (sscan p (canon_len p)) = 0
        /\ keygrip (snd (sscan p (canon_len p))) = Some g /\ grip = Some g)
  /\ (Keygrip.count Keygrip.Xfree_p tr = 1%nat <->
      exists p, pubkey cert = Some p /\ canon_len p <> 0)
  /\ (Keygrip.count Keygrip.Xfree_p tr <= 1)%nat
  /\ (Keygrip.count Keygrip.Gcry_sexp_release tr = 1%nat <->
      exists p, pubkey cert = Some p /\ canon_len p <> 0
                /\ fst (sscan p (canon_len p)) = 0)
  /\ Keygrip.count Keygrip.Gcry_sexp_release tr
     = Keygrip.count Keygrip.Gcry_pk_get_keygrip tr.
Proof.
  unfold Keygrip.card_help_get_keygrip.
  destruct (pubkey cert) as [p |] eqn:Hp.
  - destruct (Z.eqb_spec (canon_len p) 0) as [Hn | Hn].
    + split; [| split; [| split; [| split; [| split]]]].
      * right. now split.
      * split; [discriminate |].
        intros (p0 & g & Hp0 & Hn0 & _). injection Hp0 as <-. contradiction.
      * split; [discriminate |].
        intros (p0 & Hp0 & Hn0). injection Hp0 as <-. contradiction.
      * cbn. lia.
      * split; [discriminate |].
        intros (p0 & Hp0 & Hn0 & _). injection Hp0 as <-. contradiction.
      * reflexivity.
    + destruct (sscan p (canon_len p)) as [rc s_pkey] eqn:Hs. cbn [fst snd].
      destruct (Z.eqb_spec rc 0) as [Hrc | Hrc]; cbn [negb].
      * destruct (keygrip s_pkey) as [g |] eqn:Hg;
          (split; [| split; [| split; [| split; [| split]]]]).
        -- left. split; [reflexivity | discriminate].
        -- split; [| reflexivity]. intros _. exists p, g. rewrite Hs. cbn [fst snd]. now repeat split.
        -- split; [| reflexivity]. intros _. now exists p.
        -- cbn. lia.
        -- split; [| reflexivity]. intros _. exists p. rewrite Hs. cbn [fst snd]. now repeat split.
        -- reflexivity.
        -- right. now split.
        -- split; [discriminate |].
           intros (p0 & g & Hp0 & _ & _ & Hg0 & _). injection Hp0 as <-.
           rewrite Hs in Hg0. cbn [snd] in Hg0. congruence.
        -- split; [| reflexivity]. intros _. now exists p.
        -- cbn. lia.
        -- split; [| reflexivity]. intros _. exists p. rewrite Hs. cbn [fst snd]. now repeat split.
        -- reflexivity.
      * split; [| split; [| split; [| split; [| split]]]].
        -- right. now split.
        -- split; [discriminate |].
           intros (p0 & g & Hp0 & _ & Hrc0 & _). injection Hp0 as <-.
           rewrite Hs in Hrc0. cbn [fst] in Hrc0. contradiction.
        -- split; [| reflexivity]. intros _. now exists p.
        -- cbn. lia.
        -- split; [discriminate |].
           intros (p0 & Hp0 & _ & Hrc0). injection Hp0 as <-.
           rewrite Hs in Hrc0. cbn [fst] in Hrc0. contradiction.
        -- reflexivity.
  - split; [| split; [| split; [| split; [| split]]]].
    + right. now split.
    + split; [discriminate |]. intros (p0 & g & Hp0 & _). discriminate Hp0.
    + split; [discriminate |]. intros (p0 & Hp0 & _). discriminate Hp0.
    + cbn. lia.
    + split; [discriminate |]. intros (p0 & Hp0 & _). discriminate Hp0.
    + reflexivity.
Qed.

(** ** The GDO file behind a serial *)

(** X23: serial retrieval reads the GDO file only after it has selected
    it as a transparent working EF of 1 to 255 bytes, so the read never
    asks for more than the 256 bytes of its buffer; and it returns a
    serial only if that read returned exactly the size of the file. *)
Theorem gdo_file_is_checked_before_use E cs p15b dsb w card :
  0 <= Session.file_size (snd (Session.sw_select_file w)) ->
  ((exists rc1,
      In (Session.Sc_read_binary rc1)
         (snd (Session.card_get_serial_and_stamp E cs p15b dsb w (Some card) true true))) ->
   fst (Session.sw_select_file w) = 0
   /\ Session.file_type (snd (Session.sw_select_file w)) = SC_FILE_TYPE_WORKING_EF E
   /\ Session.ef_structure (snd (Session.sw_select_file w)) = SC_FILE_EF_TRANSPARENT E
   /\ 1 <= Session.file_size (snd (Session.sw_select_file w)) <= 255)
  /\ ((exists str,
         snd (fst (Session.card_get_serial_and_stamp E cs p15b dsb w (Some card) true true))
         = Ok str) ->
      fst (Session.sw_select_file w) = 0
      /\ 1 <= Session.file_size (snd (Session.sw_select_file w)) <= 255
      /\ fst (Session.sw_read_binary w) = Session.file_size (snd (Session.sw_select_file w))).
Proof.
  intros Hsz.
  assert (Hcalls : snd (Session.card_get_serial_and_stamp E cs p15b dsb w (Some card) true true)
                   = (snd (Session.bind_on_first_use p15b dsb w card)
                      ++ snd (Session.read_iccsn E cs w))%list).
  { unfold Session.card_get_serial_and_stamp. cbn [negb orb].
    destruct (Session.bind_on_first_use p15b dsb w card) as [c tr].
    now destruct (Session.read_iccsn E cs w) as [r tr1]. }
  assert (Hbind : forall rc1,
             ~ In (Session.Sc_read_binary rc1) (snd (Session.bind_on_first_use p15b dsb w card))).
  { intros rc1. unfold Session.bind_on_first_use.
    destruct (Session.initialized (Session.fnc card)); [intros [] |].
    destruct (Session.sw_pkcs15_bind w) as [rc p15].
    destruct (Session.p15card _); cbn; intuition discriminate. }
  rewrite get_serial_result, Hcalls.
  unfold Session.read_iccsn in *.
  destruct (Session.sw_select_file w) as [rc file].
  destruct (Session.sw_read_binary w) as [rc1 buf]. cbn [fst snd] in *.
  destruct (Z.eqb_spec rc 0) as [Hrc | Hrc]; cbn [negb].
  2:{ split.
      - intros (r1 & Hin). apply in_app_or in Hin as [Hin | Hin];
          [now apply Hbind in Hin | cbn in Hin; intuition discriminate].
      - intros (str & H). discriminate H. }
  destruct (Z.eqb_spec (Session.file_type file) (SC_FILE_TYPE_WORKING_EF E)) as [Ht | Ht];
    cbn [negb orb].
  2:{ split.
      - intros (r1 & Hin). apply in_app_or in Hin as [Hin | Hin];
          [now apply Hbind in Hin | cbn in Hin; intuition discriminate].
      - intros (str & H). discriminate H. }
  destruct (Z.eqb_spec (Session.ef_structure file) (SC_FILE_EF_TRANSPARENT E)) as [He | He];
    cbn [negb].
  2:{ split.
      - intros (r1 & Hin). apply in_app_or in Hin as [Hin | Hin];
          [now apply Hbind in Hin | cbn in Hin; intuition discriminate].
      - intros (str & H). discriminate H. }
  destruct (Z.eqb_spec (Session.file_size file) 0) as [Hz | Hz]; cbn [orb].
  { split.
    - intros (r1 & Hin). apply in_app_or in Hin as [Hin | Hin];
        [now apply Hbind in Hin | cbn in Hin; intuition discriminate].
    - intros (str & H). discriminate H. }
  destruct (Z.leb_spec 256 (Session.file_size file)) as [Hbig | Hbig].
  { split.
    - intros (r1 & Hin). apply in_app_or in Hin as [Hin | Hin];
        [now apply Hbind in Hin | cbn in Hin; intuition discriminate].
    - intros (str & H). discriminate H. }
  split.
  - intros _. repeat split; try assumption; lia.
  - intros (str & H).
    destruct (Z.ltb_spec rc1 0) as [Hneg | Hneg]; [discriminate H |].
    destruct (Z.eqb_spec rc1 (Session.file_size file)) as [Heq | Hne];
      [| discriminate H].
    repeat split; try assumption; lia.
Qed.

Lemma gdo_file_is_checked_before_use_witness :
  fst (Session.sw_select_file (Sample.gdo_card (0, None) Sample.ff_gdo)) = 0
  /\ 1 <= Session.file_size (snd (Session.sw_select_file (Sample.gdo_card (0, None) Sample.ff_gdo)))
     <= 255
  /\ fst (Session.sw_read_binary (Sample.gdo_card (0, None) Sample.ff_gdo))
     = Session.file_size (snd (Session.sw_select_file (Sample.gdo_card (0, None) Sample.ff_gdo))).
Proof.
  refine (proj2 (gdo_file_is_checked_before_use Sample.opensc false
                   Sample.p15_table Sample.dinsig_table
                   (Sample.gdo_card (0, None) Sample.ff_gdo) Sample.opened _) _).
  - cbn. lia.
  - exists "FF0000FF112233"%string. reflexivity.
Defined.
